(** * Arrival scheduler of the parking/charging simulation

    Shallow embedding of [src/models/generator.py]: the classes
    [VehicleGenerator] and [CustomVehicleGenerator], with the parts of
    [random] (the shared random source, [random.shuffle]) and of [simpy]
    ([Environment.timeout], [Environment.process]) that their methods use.

    The generator object ([self]) and the simulation world (the simpy
    environment and the global random state) are threaded through a small
    state-and-exception monad; a Python exception leaves the state as it was
    when the exception was raised. *)

From Stdlib Require Import List ZArith QArith String Permutation Sorted Lia.
Import ListNotations.

(** Python object references: the environment, the two simpy resources and
    the logger are opaque objects the generator only holds and hands on. *)
Definition ref := N.

(** The exceptions the modelled code can raise. *)
Inductive exc :=
| AttributeError (name : string)
| ValueError (msg : string)
| IndexError.

Inductive result (A : Type) :=
| Ok (a : A)
| Err (e : exc).
Arguments Ok {A} a.
Arguments Err {A} e.

(** The shared random source ([random.Random]); [_randbelow n] draws a
    number meant to lie in [0, n) and advances the source. *)
Class Random (RNG : Type) := {
  randbelow : nat -> RNG -> nat * RNG
}.

(** A Vehicle, as built by [Vehicle(vid=..., vtype=..., env=...,
    parking_res=..., charger_res=..., logger=...)]. Modelled from the spec:
    [src/models/vehicle.py] is not available; an entity is "constructible
    from (identity, type, pool handles, event sink)", which is what this
    record keeps. *)
Record Vehicle := mkVehicle {
  vid : Z;
  vtype : string;
  venv : ref;
  vparking_res : ref;
  vcharger_res : ref;
  vlogger : ref
}.

(** [Python's list.__setitem__] on an index known to be in range. *)
Fixpoint set_nth {A} (l : list A) (i : nat) (a : A) : list A :=
  match l, i with
  | [], _ => []
  | _ :: t, O => a :: t
  | h :: t, S i' => h :: set_nth t i' a
  end.

Section Scheduler.
Context {RNG : Type} `{Random RNG}.

(** An interarrival sampler: a Python callable with no argument that draws
    from the shared random source. *)
Definition sampler := RNG -> Q * RNG.

(** What the simpy environment records of the generator's activity: the
    timeouts it yields and the processes it starts (with the time of start). *)
Inductive event :=
| ETimeout (delay : Q)
| EProcess (at_time : Q) (v : Vehicle).

Record World := mkWorld {
  now : Q;
  rng : RNG;
  events : list event
}.

(** The attributes of a generator object. [interarrival_func],
    [normal_count] and [ev_count] are [None] when the object has no such
    attribute (they are only set by [CustomVehicleGenerator.__init__]). *)
Record VehicleGenerator := mkGen {
  env : ref;
  parking_res : ref;
  charger_res : ref;
  logger : ref;
  next_id : Z;
  interarrival_func : option sampler;
  normal_count : option Z;
  ev_count : option Z
}.

(** Field accessors usable where a binder shadows the field name. *)
Definition VehicleGenerator_env := env.
Definition VehicleGenerator_parking_res := parking_res.
Definition VehicleGenerator_charger_res := charger_res.
Definition VehicleGenerator_logger := logger.
Definition VehicleGenerator_next_id := next_id.

Record St := mkSt {
  self : VehicleGenerator;
  world : World
}.

Definition M (A : Type) := St -> result A * St.

Definition ret {A} (a : A) : M A := fun s => (Ok a, s).

Definition bind {A B} (m : M A) (k : A -> M B) : M B :=
  fun s =>
    match m s with
    | (Ok a, s') => k a s'
    | (Err e, s') => (Err e, s')
    end.

Definition raise {A} (e : exc) : M A := fun s => (Err e, s).

Local Notation "x <- m ;; k" := (bind m (fun x => k))
  (at level 61, m at next level, right associativity).
Local Notation "m ;; k" := (bind m (fun _ => k))
  (at level 61, right associativity).

Definition get_self : M VehicleGenerator := fun s => (Ok (self s), s).

Definition put_self (g : VehicleGenerator) : M unit :=
  fun s => (Ok tt, mkSt g (world s)).

(** [self.<name>]: fails with [AttributeError] when the attribute is unset. *)
Definition getattr {A} (name : string) (f : VehicleGenerator -> option A) : M A :=
  fun s =>
    match f (self s) with
    | Some a => (Ok a, s)
    | None => (Err (AttributeError name), s)
    end.

Definition with_next_id (g : VehicleGenerator) (n : Z) : VehicleGenerator :=
  mkGen (env g) (parking_res g) (charger_res g) (logger g) n
        (interarrival_func g) (normal_count g) (ev_count g).

(** [x[i]] on a Python list. *)
Definition getitem {A} (x : list A) (i : nat) : M A :=
  match nth_error x i with
  | Some a => ret a
  | None => raise IndexError
  end.

(** [random._randbelow(n)] on the shared random source. *)
Definition rand_below (n : nat) : M nat :=
  fun s =>
    let w := world s in
    let (j, r') := randbelow n (rng w) in
    (Ok j, mkSt (self s) (mkWorld (now w) r' (events w))).

(** Calling an interarrival sampler [f()]. *)
Definition call_sampler (f : sampler) : M Q :=
  fun s =>
    let w := world s in
    let (d, r') := f (rng w) in
    (Ok d, mkSt (self s) (mkWorld (now w) r' (events w))).

Definition Qltb (x y : Q) : bool := negb (Qle_bool y x).

(** [yield env.timeout(delay)]: simpy's [Timeout.__init__] raises
    [ValueError('Negative delay ...')] on a negative delay; otherwise the
    yielding process resumes [delay] time units later. *)
Definition env_timeout (delay : Q) : M unit :=
  fun s =>
    if Qltb delay 0 then (Err (ValueError "Negative delay"), s)
    else
      let w := world s in
      (Ok tt, mkSt (self s)
                (mkWorld (now w + delay) (rng w) (events w ++ [ETimeout delay]))).

(** [env.process(vehicle.process())]: registers the vehicle's process with
    the environment and returns at once, without running it. *)
Definition env_process (v : Vehicle) : M unit :=
  fun s =>
    let w := world s in
    (Ok tt, mkSt (self s)
              (mkWorld (now w) (rng w) (events w ++ [EProcess (now w) v]))).

(** [random.shuffle(x)]:
<<
    for i in reversed(range(1, len(x))):
        j = randbelow(i + 1)
        x[i], x[j] = x[j], x[i]
>>
    [shuffle_loop i x] runs the iterations [i, i-1, ..., 1]. *)
Fixpoint shuffle_loop (i : nat) (x : list string) : M (list string) :=
  match i with
  | O => ret x
  | S i' =>
      j <- rand_below (i + 1)%nat ;;
      xj <- getitem x j ;;
      xi <- getitem x i ;;
      shuffle_loop i' (set_nth (set_nth x i xj) j xi)
  end.

Definition shuffle (x : list string) : M (list string) :=
  shuffle_loop (List.length x - 1)%nat x.

(** [VehicleGenerator.generate_vehicle(self, vtype)]. *)
Definition generate_vehicle (vt : string) : M unit :=
  g <- get_self ;;
  let vehicle := mkVehicle (next_id g) vt (env g) (parking_res g)
                           (charger_res g) (logger g) in
  put_self (with_next_id g (next_id g + 1)%Z) ;;
  env_process vehicle.

(** The loop [for vtype in vehicle_types: yield
    self.env.timeout(self.interarrival_func()); self.generate_vehicle(vtype)]. *)
Fixpoint run_loop (vehicle_types : list string) : M unit :=
  match vehicle_types with
  | [] => ret tt
  | vt :: rest =>
      f <- getattr "interarrival_func" interarrival_func ;;
      d <- call_sampler f ;;
      env_timeout d ;;
      generate_vehicle vt ;;
      run_loop rest
  end.

(** [VehicleGenerator.run(self)], lines 60-73. [["normal"] * n] is the
    empty list when [n <= 0], i.e. [repeat "normal" (Z.to_nat n)]. *)
Definition VehicleGenerator_run : M unit :=
  nc <- getattr "normal_count" normal_count ;;
  ec <- getattr "ev_count" ev_count ;;
  let total_vehicles := (nc + ec)%Z in
  nc <- getattr "normal_count" normal_count ;;
  ec <- getattr "ev_count" ev_count ;;
  let vehicle_types := repeat "normal"%string (Z.to_nat nc)
                       ++ repeat "ev"%string (Z.to_nat ec) in
  vehicle_types <- shuffle vehicle_types ;;
  run_loop vehicle_types.

(** [CustomVehicleGenerator.run(self)], lines 107-119. *)
Definition CustomVehicleGenerator_run : M unit :=
  nc <- getattr "normal_count" normal_count ;;
  ec <- getattr "ev_count" ev_count ;;
  let total_vehicles := (nc + ec)%Z in
  nc <- getattr "normal_count" normal_count ;;
  ec <- getattr "ev_count" ev_count ;;
  let vehicle_types := repeat "normal"%string (Z.to_nat nc)
                       ++ repeat "ev"%string (Z.to_nat ec) in
  vehicle_types <- shuffle vehicle_types ;;
  run_loop vehicle_types.

(** [VehicleGenerator.__init__]: sets env, the two resources, the logger
    and [next_id = 0], and nothing else. *)
Definition VehicleGenerator_init (env parking_res charger_res logger : ref)
  : VehicleGenerator :=
  mkGen env parking_res charger_res logger 0 None None None.

(** [CustomVehicleGenerator.__init__]. [sample_interarrival] is the default
    sampler imported from [src.utils.helpers]; the count defaults
    ([NUM_NORMAL], [NUM_EV]) are applied by the caller. *)
Definition CustomVehicleGenerator_init (sample_interarrival : sampler)
  (env parking_res charger_res logger : ref)
  (interarrival_func : option sampler) (normal_count ev_count : Z)
  : VehicleGenerator :=
  let g := VehicleGenerator_init env parking_res charger_res logger in
  mkGen (VehicleGenerator_env g) (VehicleGenerator_parking_res g)
        (VehicleGenerator_charger_res g) (VehicleGenerator_logger g)
        (VehicleGenerator_next_id g)
        (Some (match interarrival_func with
               | Some f => f
               | None => sample_interarrival
               end))
        (Some normal_count) (Some ev_count).

(** ** Observations on the environment's record *)

Fixpoint spawned (E : list event) : list Vehicle :=
  match E with
  | [] => []
  | EProcess _ v :: rest => v :: spawned rest
  | ETimeout _ :: rest => spawned rest
  end.

Fixpoint spawn_times (E : list event) : list Q :=
  match E with
  | [] => []
  | EProcess t _ :: rest => t :: spawn_times rest
  | ETimeout _ :: rest => spawn_times rest
  end.

Fixpoint delays_of (E : list event) : list Q :=
  match E with
  | [] => []
  | ETimeout d :: rest => d :: delays_of rest
  | EProcess _ _ :: rest => delays_of rest
  end.

Definition spawned_types (E : list event) : list string := map vtype (spawned E).

(** [n] successive calls of a sampler on the shared random source. *)
Fixpoint draws (f : sampler) (r : RNG) (n : nat) : list Q * RNG :=
  match n with
  | O => ([], r)
  | S n' =>
      let (d, r1) := f r in
      let (ds, r2) := draws f r1 n' in
      (d :: ds, r2)
  end.

(** The events a completed loop leaves: for each planned type and its
    sampled delay, the timeout, then the process of the new vehicle. *)
Fixpoint loop_trace (g : VehicleGenerator) (id : Z) (t : Q)
  (plan : list (string * Q)) : list event :=
  match plan with
  | [] => []
  | (vt, d) :: rest =>
      ETimeout d
      :: EProcess (t + d) (mkVehicle id vt (env g) (parking_res g)
                                      (charger_res g) (logger g))
      :: loop_trace g (id + 1) (t + d) rest
  end.

(** Partial sums [t + d1, t + d1 + d2, ...], associated to the left as the
    clock adds them. *)
Fixpoint cumul (t : Q) (ds : list Q) : list Q :=
  match ds with
  | [] => []
  | d :: rest => (t + d) :: cumul (t + d) rest
  end.

Definition qsum (ds : list Q) : Q := fold_right Qplus 0 ds.

(** A sequence of operations a driver performs on one generator:
    [generate_vehicle(vtype)] or running [run] to its end. *)
Inductive op :=
| Spawn (vt : string)
| Run.

Fixpoint exec (ops : list op) : M unit :=
  match ops with
  | [] => ret tt
  | Spawn vt :: rest => generate_vehicle vt ;; exec rest
  | Run :: rest => CustomVehicleGenerator_run ;; exec rest
  end.

(** Replacing the four object references the generator holds (in the
    generator and in every vehicle handed to the environment). *)
Record handles := mkHandles { h_env : ref; h_parking : ref; h_charger : ref; h_logger : ref }.

Definition relabel_vehicle (h : handles) (v : Vehicle) : Vehicle :=
  mkVehicle (vid v) (vtype v) (h_env h) (h_parking h) (h_charger h) (h_logger h).

Definition relabel_event (h : handles) (e : event) : event :=
  match e with
  | ETimeout d => ETimeout d
  | EProcess t v => EProcess t (relabel_vehicle h v)
  end.

Definition relabel (h : handles) (s : St) : St :=
  let g := self s in
  let w := world s in
  mkSt (mkGen (h_env h) (h_parking h) (h_charger h) (h_logger h) (next_id g)
              (interarrival_func g) (normal_count g) (ev_count g))
       (mkWorld (now w) (rng w) (map (relabel_event h) (events w))).

End Scheduler.

Arguments sampler RNG : clear implicits.
Arguments World RNG : clear implicits.
Arguments VehicleGenerator RNG : clear implicits.
Arguments St RNG : clear implicits.
Arguments M RNG A : clear implicits.




(** ** Properties the proofs are stated with *)

Section Predicates.
Context {RNG : Type} `{Random RNG}.

(** The vehicles of [E] carry the references of [g]. *)
Definition carries_handles (g : VehicleGenerator RNG) (E : list event) : Prop :=
  forall t v, In (EProcess t v) E ->
    venv v = env g /\ vparking_res v = parking_res g /\
    vcharger_res v = charger_res g /\ vlogger v = logger g.

(** [s'] differs from [s] at most in [next_id] and by new events whose
    vehicles carry the generator's references. *)
Definition framed (s s' : St RNG) : Prop :=
  self s' = with_next_id (self s) (next_id (self s')) /\
  exists E, events (world s') = events (world s) ++ E /\ carries_handles (self s) E.

Definition frames {A} (m : M RNG A) : Prop := forall s, framed s (snd (m s)).

(** Renaming the references commutes with a computation. *)
Definition commutes {A} (m : M RNG A) : Prop :=
  forall h s, m (relabel h s) = (fst (m s), relabel h (snd (m s))).

(** What a run shows of itself besides identifiers, times and references:
    the delays it waits and the types it spawns, in order. *)
Definition observe (e : event) : Q + string :=
  match e with
  | ETimeout d => inl d
  | EProcess _ v => inr (vtype v)
  end.

(** Two states agree on everything a run is configured by: the counts, the
    sampler and the random source. *)
Definition same_config (s1 s2 : St RNG) : Prop :=
  rng (world s1) = rng (world s2) /\
  interarrival_func (self s1) = interarrival_func (self s2) /\
  normal_count (self s1) = normal_count (self s2) /\
  ev_count (self s1) = ev_count (self s2).

Definition replays {A} (m : M RNG A) : Prop :=
  forall s1 s2, same_config s1 s2 ->
    fst (m s1) = fst (m s2) /\ same_config (snd (m s1)) (snd (m s2)) /\
    exists E1 E2,
      events (world (snd (m s1))) = events (world s1) ++ E1 /\
      events (world (snd (m s2))) = events (world s2) ++ E2 /\
      map observe E1 = map observe E2.

(** Python's [_randbelow(n)] returns a number in [0, n). *)
Definition randbelow_in_range : Prop :=
  forall n r, (0 < n)%nat -> (fst (randbelow n r) < n)%nat.

(** The events of direct [generate_vehicle] calls for the types [vts]:
    one process per type, all started at time [t], numbered from [id]. *)
Fixpoint spawn_events (g : VehicleGenerator RNG) (id : Z) (t : Q)
  (vts : list string) : list event :=
  match vts with
  | [] => []
  | vt :: rest =>
      EProcess t (mkVehicle id vt (env g) (parking_res g) (charger_res g) (logger g))
      :: spawn_events g (id + 1) t rest
  end.

(** The vehicles started between [s] and [s'] are numbered [next_id],
    [next_id + 1], ... of [s], and [next_id] has moved past them. *)
Definition ids_from (s s' : St RNG) : Prop :=
  exists E,
    events (world s') = events (world s) ++ E /\
    map vid (spawned E)
    = map (fun k => next_id (self s) + Z.of_nat k)%Z (seq 0 (List.length (spawned E))) /\
    next_id (self s') = (next_id (self s) + Z.of_nat (List.length (spawned E)))%Z.

Definition numbers {A} (m : M RNG A) : Prop := forall s, ids_from s (snd (m s)).

(** Between [s] and [s'] the clock did not go back, and the vehicles started
    in between were started in non-decreasing time order, within
    [now s, now s']. *)
Definition clock_from (s s' : St RNG) : Prop :=
  now (world s) <= now (world s') /\
  exists E,
    events (world s') = events (world s) ++ E /\
    StronglySorted Qle (spawn_times E) /\
    Forall (fun t => now (world s) <= t /\ t <= now (world s')) (spawn_times E).

Definition keeps_clock {A} (m : M RNG A) : Prop := forall s, clock_from s (snd (m s)).

End Predicates.

(** ** A concrete random source and concrete generators *)

#[local] Instance counter_random : Random nat :=
  { randbelow n s := (Nat.modulo (s * 7 + 3) n, S s) }.

Definition const_sampler (d : Q) : @sampler nat := fun r => (d, S r).

Definition gen0 (n m : Z) : @VehicleGenerator nat :=
  CustomVehicleGenerator_init (const_sampler 2) 1%N 2%N 3%N 4%N
                              (Some (const_sampler 1)) n m.

Definition st0 (n m : Z) : @St nat := mkSt (gen0 n m) (mkWorld 0 0%nat []).

Definition run0 (n m : Z) := CustomVehicleGenerator_run (st0 n m).

Definition neg_state : St nat :=
  mkSt (mkGen 1%N 2%N 3%N 4%N 0 (Some (const_sampler (-1))) (Some 1%Z) (Some 0%Z))
       (mkWorld 0 0%nat []).

Definition other_state : St nat :=
  mkSt (mkGen 7%N 8%N 9%N 10%N 42 (Some (const_sampler 1)) (Some 3%Z) (Some 2%Z))
       (mkWorld 5 0%nat [ETimeout 3]).

(** ** Concrete runs *)

Example run0_3_2_ok : fst (run0 3 2) = Ok tt.
Proof. vm_compute. reflexivity. Qed.

Example run0_3_2_types :
  spawned_types (events (world (snd (run0 3 2)))) = ["normal"; "normal"; "ev"; "normal"; "ev"]%string.
Proof. vm_compute. reflexivity. Qed.

Example run0_3_2_ids_times :
  map vid (spawned (events (world (snd (run0 3 2))))) = [0; 1; 2; 3; 4]%Z /\
  spawn_times (events (world (snd (run0 3 2)))) = [1; 2; 3; 4; 5]%Q /\
  next_id (self (snd (run0 3 2))) = 5%Z.
Proof. vm_compute. repeat split. Qed.

(** ** Python list updates *)

Lemma set_nth_app {A} (l1 l2 : list A) (a b : A) :
  set_nth (l1 ++ a :: l2) (List.length l1) b = l1 ++ b :: l2.
Proof. induction l1 as [|h t IH]; simpl; [reflexivity | now rewrite IH]. Qed.

Lemma nth_error_set_nth_same {A} (l : list A) (i : nat) (b : A) :
  (i < List.length l)%nat -> nth_error (set_nth l i b) i = Some b.
Proof.
  revert i; induction l as [|h t IH]; intros [|i] Hi; simpl in *; try lia.
  - reflexivity.
  - apply IH; lia.
Qed.

Lemma nth_error_set_nth_other {A} (l : list A) (i j : nat) (b : A) :
  i <> j -> nth_error (set_nth l i b) j = nth_error l j.
Proof.
  revert i j; induction l as [|h t IH]; intros [|i] [|j] Hij; simpl;
    try reflexivity; try congruence.
  apply IH; congruence.
Qed.

Lemma perm_set_nth {A} (l : list A) (i : nat) (a b : A) :
  nth_error l i = Some a -> Permutation (a :: set_nth l i b) (b :: l).
Proof.
  intros Hi.
  destruct (nth_error_split l i Hi) as (l1 & l2 & -> & <-).
  rewrite set_nth_app.
  transitivity (a :: b :: l1 ++ l2).
  { apply perm_skip. symmetry. apply Permutation_middle. }
  transitivity (b :: a :: l1 ++ l2); [apply perm_swap|].
  apply perm_skip. apply Permutation_middle.
Qed.

(** [x[i], x[j] = x[j], x[i]] permutes [x] when both reads succeed. *)
Lemma swap_perm {A} (x : list A) (i j : nat) (xi xj : A) :
  nth_error x j = Some xj -> nth_error x i = Some xi ->
  Permutation x (set_nth (set_nth x i xj) j xi).
Proof.
  intros Hj Hi.
  assert (Hj' : nth_error (set_nth x i xj) j = Some xj).
  { destruct (Nat.eq_dec i j) as [<-|Hne].
    - apply nth_error_set_nth_same. apply nth_error_Some. congruence.
    - rewrite nth_error_set_nth_other by exact Hne. exact Hj. }
  apply (Permutation_cons_inv (a := xj)).
  symmetry.
  transitivity (xi :: set_nth x i xj).
  - apply perm_set_nth. exact Hj'.
  - apply perm_set_nth. exact Hi.
Qed.

(** ** The shuffle only touches the random source *)

Section ShuffleFacts.
Context {RNG : Type} `{Random RNG}.

Lemma shuffle_loop_frame (i : nat) (x : list string) (s : St RNG) :
  let '(r, s') := shuffle_loop i x s in
  self s' = self s /\ now (world s') = now (world s) /\
  events (world s') = events (world s) /\
  (forall y, r = Ok y -> Permutation x y).
Proof.
  revert x s; induction i as [|i IH]; intros x s; simpl.
  - repeat split. intros y [= <-]. reflexivity.
  - unfold bind at 1, rand_below.
    destruct (randbelow (S (i + 1)) (rng (world s))) as [j r1] eqn:Er.
    unfold bind at 1, getitem at 1.
    destruct (nth_error x j) as [xj|] eqn:Ej; [|simpl; repeat split; discriminate].
    unfold ret, bind at 1, getitem.
    destruct (nth_error x (S i)) as [xi|] eqn:Ei; [|simpl; repeat split; discriminate].
    unfold ret.
    match goal with |- context [shuffle_loop i ?x' ?s1] =>
      specialize (IH x' s1); destruct (shuffle_loop i x' s1) as [r s'] end.
    simpl in IH. destruct IH as (Hs & Hn & He & Hp).
    repeat split; try assumption.
    intros y Hy. specialize (Hp y Hy).
    eapply Permutation_trans; [|exact Hp].
    apply swap_perm; assumption.
Qed.

End ShuffleFacts.

(** ** The plan loop *)

Section LoopFacts.
Context {RNG : Type} `{Random RNG}.

Lemma bind_ok {A B} (m : M RNG A) (k : A -> M RNG B) (s s1 : St RNG) (a : A) :
  m s = (Ok a, s1) -> bind m k s = k a s1.
Proof. intros E. unfold bind. now rewrite E. Qed.

Lemma bind_err {A B} (m : M RNG A) (k : A -> M RNG B) (s s1 : St RNG) (e : exc) :
  m s = (Err e, s1) -> bind m k s = (Err e, s1).
Proof. intros E. unfold bind. now rewrite E. Qed.

Lemma generate_vehicle_eq (vt : string) (s : St RNG) :
  generate_vehicle vt s =
  (Ok tt,
   mkSt (with_next_id (self s) (next_id (self s) + 1))
        (mkWorld (now (world s)) (rng (world s))
           (events (world s) ++
            [EProcess (now (world s))
               (mkVehicle (next_id (self s)) vt (env (self s)) (parking_res (self s))
                          (charger_res (self s)) (logger (self s)))]))).
Proof. reflexivity. Qed.

Lemma Qltb_false (d : Q) : Qltb d 0 = false -> 0 <= d.
Proof.
  unfold Qltb. intros E. apply Qle_bool_iff.
  destruct (Qle_bool 0 d); [reflexivity | discriminate].
Qed.

Lemma Qltb_true (d : Q) : d < 0 -> Qltb d 0 = true.
Proof.
  unfold Qltb. intros Hd. destruct (Qle_bool 0 d) eqn:E; [|reflexivity].
  apply Qle_bool_iff in E. exfalso. apply (Qlt_not_le d 0); assumption.
Qed.

Lemma loop_trace_with_next_id (g : VehicleGenerator RNG) (k id : Z) (t : Q) plan :
  loop_trace (with_next_id g k) id t plan = loop_trace g id t plan.
Proof.
  revert id t; induction plan as [|[vt d] rest IH]; intros id t; simpl;
    [reflexivity | now rewrite IH].
Qed.

(** One iteration of the loop that reaches [generate_vehicle]. *)
Lemma run_loop_cons_step (vt : string) (rest : list string) (f : sampler RNG)
  (s : St RNG) (d : Q) (r1 : RNG) :
  interarrival_func (self s) = Some f ->
  f (rng (world s)) = (d, r1) ->
  Qltb d 0 = false ->
  run_loop (vt :: rest) s =
  run_loop rest
    (mkSt (with_next_id (self s) (next_id (self s) + 1))
       (mkWorld (now (world s) + d) r1
          (events (world s) ++ [ETimeout d] ++
           [EProcess (now (world s) + d)
              (mkVehicle (next_id (self s)) vt (env (self s)) (parking_res (self s))
                         (charger_res (self s)) (logger (self s)))]))).
Proof.
  intros Hf Ef Hd. cbn [run_loop].
  unfold bind at 1, getattr. rewrite Hf.
  unfold bind at 1, call_sampler. rewrite Ef.
  unfold bind at 1, env_timeout. cbn [world self now rng events]. rewrite Hd.
  unfold bind. rewrite generate_vehicle_eq. cbn.
  rewrite <- app_assoc. reflexivity.
Qed.

Lemma run_loop_ok (vts : list string) (f : sampler RNG) (s s' : St RNG) :
  interarrival_func (self s) = Some f ->
  run_loop vts s = (Ok tt, s') ->
  let g := self s in
  let w := world s in
  let (ds, r') := draws f (rng w) (List.length vts) in
  Forall (Qle 0) ds /\
  self s' = with_next_id g (next_id g + Z.of_nat (List.length vts)) /\
  now (world s') = fold_left Qplus ds (now w) /\
  rng (world s') = r' /\
  events (world s') = events w ++ loop_trace g (next_id g) (now w) (combine vts ds).
Proof.
  revert s; induction vts as [|vt rest IH]; intros s Hf Hrun; cbn zeta.
  - cbn in Hrun. injection Hrun as <-. cbn.
    destruct s as [[] w]; cbn. rewrite Z.add_0_r, app_nil_r. repeat (split || constructor).
  - cbn [List.length draws].
    destruct (f (rng (world s))) as [d r1] eqn:Ef.
    destruct (Qltb d 0) eqn:Hd.
    + exfalso. cbn [run_loop] in Hrun.
      unfold bind at 1, getattr in Hrun. rewrite Hf in Hrun.
      unfold bind at 1, call_sampler in Hrun. rewrite Ef in Hrun.
      unfold bind at 1, env_timeout in Hrun. cbn in Hrun. rewrite Hd in Hrun.
      discriminate.
    + rewrite (run_loop_cons_step vt rest f s d r1 Hf Ef Hd) in Hrun.
      apply IH in Hrun; [|exact Hf]. clear IH. rename Hrun into IH.
      cbn zeta in IH. cbn [self world rng now events] in IH.
      destruct (draws f r1 (List.length rest)) as [ds r2].
      destruct IH as (Hds & Hself & Hnow & Hrng & Hev).
      repeat split.
      * constructor; [apply Qltb_false; exact Hd | exact Hds].
      * rewrite Hself. unfold with_next_id; cbn. f_equal. lia.
      * exact Hnow.
      * exact Hrng.
      * rewrite Hev, loop_trace_with_next_id. cbn.
        now rewrite <- !app_assoc.
Qed.

End LoopFacts.

(** ** A completed [run] *)

Section RunFacts.
Context {RNG : Type} `{Random RNG}.

Lemma draws_length (f : sampler RNG) (r : RNG) (k : nat) :
  List.length (fst (draws f r k)) = k.
Proof.
  revert r; induction k as [|k IH]; intros r; cbn; [reflexivity|].
  destruct (f r) as [d r1]. specialize (IH r1).
  destruct (draws f r1 k) as [ds r2]. cbn in *. now rewrite IH.
Qed.

Lemma draws_const (f : sampler RNG) (c : Q) (r : RNG) (k : nat) :
  (forall r, fst (f r) = c) -> fst (draws f r k) = repeat c k.
Proof.
  intros Hc. revert r; induction k as [|k IH]; intros r; cbn; [reflexivity|].
  specialize (Hc r). destruct (f r) as [d r1]. specialize (IH r1).
  destruct (draws f r1 k) as [ds r2]. cbn in *. now subst.
Qed.

Lemma spawned_app (E1 E2 : list event) :
  spawned (E1 ++ E2) = spawned E1 ++ spawned E2.
Proof.
  induction E1 as [|[d|t v] E1 IH]; cbn; [reflexivity | exact IH | now rewrite IH].
Qed.

Lemma spawned_types_loop_trace (g : VehicleGenerator RNG) id t vts ds :
  List.length ds = List.length vts ->
  spawned_types (loop_trace g id t (combine vts ds)) = vts.
Proof.
  unfold spawned_types.
  revert id t ds; induction vts as [|vt vts IH]; intros id t [|d ds] Hl;
    cbn in *; try discriminate; [reflexivity|].
  f_equal. apply IH. lia.
Qed.

Lemma vids_loop_trace (g : VehicleGenerator RNG) id t plan :
  map vid (spawned (loop_trace g id t plan))
  = map (fun k => id + Z.of_nat k)%Z (seq 0 (List.length plan)).
Proof.
  revert id t; induction plan as [|[vt d] plan IH]; intros id t; cbn; [reflexivity|].
  rewrite IH, Z.add_0_r. f_equal.
  rewrite <- seq_shift, map_map. apply map_ext. intros k. lia.
Qed.

Lemma spawn_times_loop_trace (g : VehicleGenerator RNG) id t vts ds :
  List.length ds = List.length vts ->
  spawn_times (loop_trace g id t (combine vts ds)) = cumul t ds.
Proof.
  revert id t ds; induction vts as [|vt vts IH]; intros id t [|d ds] Hl;
    cbn in *; try discriminate; [reflexivity|].
  f_equal. apply IH. lia.
Qed.

Lemma delays_loop_trace (g : VehicleGenerator RNG) id t vts ds :
  List.length ds = List.length vts ->
  delays_of (loop_trace g id t (combine vts ds)) = ds.
Proof.
  revert id t ds; induction vts as [|vt vts IH]; intros id t [|d ds] Hl;
    cbn in *; try discriminate; [reflexivity|].
  f_equal. apply IH. lia.
Qed.

Lemma cumul_length (t : Q) (ds : list Q) : List.length (cumul t ds) = List.length ds.
Proof. revert t; induction ds as [|d ds IH]; intros t; cbn; [reflexivity | now rewrite IH]. Qed.

Lemma nth_cumul (t : Q) (ds : list Q) (k : nat) :
  (k < List.length ds)%nat ->
  nth k (cumul t ds) 0 == t + qsum (firstn (S k) ds).
Proof.
  revert t k; induction ds as [|d ds IH]; intros t k Hk; cbn in Hk; [lia|].
  destruct k as [|k]; cbn.
  - unfold qsum; cbn. rewrite Qplus_0_r. reflexivity.
  - rewrite IH by lia. unfold qsum; cbn [firstn fold_right].
    rewrite Qplus_assoc. reflexivity.
Qed.

Lemma run_ok (s s' : St RNG) (n m : Z) (f : sampler RNG) :
  normal_count (self s) = Some n -> ev_count (self s) = Some m ->
  interarrival_func (self s) = Some f ->
  CustomVehicleGenerator_run s = (Ok tt, s') ->
  let g := self s in
  let w := world s in
  exists plan r0 ds,
    Permutation (repeat "normal"%string (Z.to_nat n) ++ repeat "ev"%string (Z.to_nat m)) plan /\
    fst (draws f r0 (List.length plan)) = ds /\
    rng (world s') = snd (draws f r0 (List.length plan)) /\
    Forall (Qle 0) ds /\
    self s' = with_next_id g (next_id g + Z.of_nat (List.length plan)) /\
    now (world s') = fold_left Qplus ds (now w) /\
    events (world s') = events w ++ loop_trace g (next_id g) (now w) (combine plan ds).
Proof.
  intros Hn Hm Hf Hrun. cbn zeta.
  unfold CustomVehicleGenerator_run in Hrun.
  unfold bind at 1, getattr in Hrun. rewrite Hn in Hrun.
  unfold bind at 1, getattr in Hrun. rewrite Hm in Hrun.
  unfold bind at 1, getattr in Hrun. rewrite Hn in Hrun.
  unfold bind at 1, getattr in Hrun. rewrite Hm in Hrun.
  unfold bind at 1 in Hrun. unfold shuffle in Hrun.
  match type of Hrun with context [shuffle_loop ?i ?x s] =>
    pose proof (shuffle_loop_frame i x s) as Hsh;
    destruct (shuffle_loop i x s) as [[plan|e] s1] eqn:Es end;
    [|discriminate].
  destruct Hsh as (Hs1 & Hn1 & He1 & Hp).
  specialize (Hp plan eq_refl).
  assert (Hf1 : interarrival_func (self s1) = Some f) by now rewrite Hs1.
  pose proof (run_loop_ok plan f s1 s' Hf1 Hrun) as Hl. cbn zeta in Hl.
  rewrite Hs1, Hn1, He1 in Hl.
  exists plan, (rng (world s1)), (fst (draws f (rng (world s1)) (List.length plan))).
  destruct (draws f (rng (world s1)) (List.length plan)) as [ds r'] eqn:Ed.
  destruct Hl as (Hds & Hself & Hnow & Hrng & Hev). cbn.
  repeat split; assumption.
Qed.

End RunFacts.

(** ** Runs of a freshly constructed generator *)

Section InitRun.
Context {RNG : Type} `{Random RNG}.

Lemma init_run_ok (sample_interarrival : sampler RNG) (e p c l : ref)
  (fopt : option (sampler RNG)) (n m : Z) (w : World RNG) (s' : St RNG) :
  CustomVehicleGenerator_run
    (mkSt (CustomVehicleGenerator_init sample_interarrival e p c l fopt n m) w)
  = (Ok tt, s') ->
  exists E,
    events (world s') = events w ++ E /\
    Permutation (repeat "normal"%string (Z.to_nat n) ++ repeat "ev"%string (Z.to_nat m))
                (spawned_types E) /\
    map vid (spawned E) = map Z.of_nat (seq 0 (Z.to_nat n + Z.to_nat m)) /\
    next_id (self s') = Z.of_nat (Z.to_nat n + Z.to_nat m).
Proof.
  intros Hrun.
  set (f := match fopt with Some f => f | None => sample_interarrival end).
  destruct (run_ok (mkSt (CustomVehicleGenerator_init sample_interarrival e p c l fopt n m) w)
                    s' n m f eq_refl eq_refl eq_refl Hrun)
    as (plan & r0 & ds & Hp & Hds & _ & _ & Hself & _ & Hev).
  cbn in Hself, Hev.
  assert (Hl : List.length ds = List.length plan)
    by (rewrite <- Hds; apply draws_length).
  assert (Hlp : List.length plan = (Z.to_nat n + Z.to_nat m)%nat)
    by (rewrite <- (Permutation_length Hp), length_app, !repeat_length; reflexivity).
  eexists; split; [exact Hev|].
  split; [|split].
  - rewrite spawned_types_loop_trace by exact Hl. exact Hp.
  - rewrite vids_loop_trace, length_combine, Hl, Nat.min_id, Hlp.
    apply map_ext. intros k. lia.
  - rewrite Hself. cbn. rewrite Hlp. reflexivity.
Qed.

Lemma count_configured (a b : nat) :
  count_occ string_dec (repeat "normal"%string a ++ repeat "ev"%string b) "normal"%string = a /\
  count_occ string_dec (repeat "normal"%string a ++ repeat "ev"%string b) "ev"%string = b.
Proof.
  rewrite !count_occ_app.
  rewrite (count_occ_repeat_eq string_dec (x := "normal"%string) (y := "normal"%string) a eq_refl).
  rewrite (count_occ_repeat_eq string_dec (x := "ev"%string) (y := "ev"%string) b eq_refl).
  rewrite (count_occ_repeat_neq string_dec (x := "normal"%string) (y := "ev"%string) b ltac:(discriminate)).
  rewrite (count_occ_repeat_neq string_dec (x := "ev"%string) (y := "normal"%string) a ltac:(discriminate)).
  split; lia.
Qed.

(** C1: a completed run of a generator configured with [normal_count = n]
    and [ev_count = m] ([n, m >= 0]) spawns exactly [n + m] vehicles, [n] of
    type "normal" and [m] of type "ev", whatever the shuffle does: the types
    spawned are a permutation of [["normal"] * n + ["ev"] * m]. *)
Theorem run_spawns_configured_mix (sample_interarrival : sampler RNG) (e p c l : ref)
  (fopt : option (sampler RNG)) (n m : Z) (w : World RNG) (s' : St RNG) :
  (0 <= n)%Z -> (0 <= m)%Z ->
  CustomVehicleGenerator_run
    (mkSt (CustomVehicleGenerator_init sample_interarrival e p c l fopt n m) w)
  = (Ok tt, s') ->
  exists E,
    events (world s') = events w ++ E /\
    Permutation (spawned_types E)
                (repeat "normal"%string (Z.to_nat n) ++ repeat "ev"%string (Z.to_nat m)) /\
    Z.of_nat (List.length (spawned E)) = (n + m)%Z /\
    Z.of_nat (count_occ string_dec (spawned_types E) "normal"%string) = n /\
    Z.of_nat (count_occ string_dec (spawned_types E) "ev"%string) = m.
Proof.
  intros Hn Hm Hrun.
  destruct (init_run_ok _ _ _ _ _ _ _ _ _ _ Hrun) as (E & Hev & Hp & _ & _).
  destruct (count_configured (Z.to_nat n) (Z.to_nat m)) as [Cn Cm].
  exists E. split; [exact Hev|]. split; [symmetry; exact Hp|].
  rewrite <- !(proj1 (Permutation_count_occ string_dec _ _) Hp), Cn, Cm.
  split; [|split; lia].
  unfold spawned_types in Hp. rewrite <- (length_map vtype), <- (Permutation_length Hp).
  rewrite length_app, !repeat_length. lia.
Qed.

(** C4 (as amended): [CustomVehicleGenerator.__init__] validates nothing; it
    stores whatever counts it is given, and a completed run spawns
    [max(n, 0)] "normal" and [max(m, 0)] "ev" vehicles, since
    [["normal"] * n] is empty for [n <= 0]. *)
Theorem init_accepts_any_counts (sample_interarrival : sampler RNG) (e p c l : ref)
  (fopt : option (sampler RNG)) (n m : Z) (w : World RNG) (s' : St RNG) :
  normal_count (CustomVehicleGenerator_init sample_interarrival e p c l fopt n m) = Some n /\
  ev_count (CustomVehicleGenerator_init sample_interarrival e p c l fopt n m) = Some m /\
  (CustomVehicleGenerator_run
     (mkSt (CustomVehicleGenerator_init sample_interarrival e p c l fopt n m) w)
   = (Ok tt, s') ->
   exists E,
     events (world s') = events w ++ E /\
     count_occ string_dec (spawned_types E) "normal"%string = Z.to_nat n /\
     count_occ string_dec (spawned_types E) "ev"%string = Z.to_nat m /\
     List.length (spawned E) = (Z.to_nat n + Z.to_nat m)%nat).
Proof.
  split; [reflexivity|]. split; [reflexivity|].
  intros Hrun.
  destruct (init_run_ok _ _ _ _ _ _ _ _ _ _ Hrun) as (E & Hev & Hp & _ & _).
  destruct (count_configured (Z.to_nat n) (Z.to_nat m)) as [Cn Cm].
  exists E. split; [exact Hev|].
  rewrite <- !(proj1 (Permutation_count_occ string_dec _ _) Hp), Cn, Cm.
  split; [reflexivity|]. split; [reflexivity|].
  unfold spawned_types in Hp. rewrite <- (length_map vtype), <- (Permutation_length Hp).
  rewrite length_app, !repeat_length. reflexivity.
Qed.

(** C2: identifiers. A completed run of a freshly constructed generator
    hands out exactly [0, 1, ..., n+m-1], in spawn order; each
    [generate_vehicle] advances [next_id] by one; two direct calls
    [generate_vehicle("ev")] in a row give consecutive identifiers, with no
    timeout between them. *)
Theorem identifiers_consecutive :
  (forall (sample_interarrival : sampler RNG) (e p c l : ref)
          (fopt : option (sampler RNG)) (n m : Z) (w : World RNG) (s' : St RNG),
     (0 <= n)%Z -> (0 <= m)%Z ->
     CustomVehicleGenerator_run
       (mkSt (CustomVehicleGenerator_init sample_interarrival e p c l fopt n m) w)
     = (Ok tt, s') ->
     exists E,
       events (world s') = events w ++ E /\
       map vid (spawned E) = map Z.of_nat (seq 0 (Z.to_nat (n + m))) /\
       next_id (self s') = (n + m)%Z) /\
  (forall (vt : string) (s : St RNG),
     fst (generate_vehicle vt s) = Ok tt /\
     next_id (self (snd (generate_vehicle vt s))) = (next_id (self s) + 1)%Z) /\
  (forall s : St RNG,
     exists t v1 v2,
       exec [Spawn "ev"; Spawn "ev"]%string s =
       (Ok tt, mkSt (with_next_id (self s) (next_id (self s) + 2))
                    (mkWorld (now (world s)) (rng (world s))
                       (events (world s) ++ [EProcess t v1; EProcess t v2]))) /\
       vid v1 = next_id (self s) /\ vid v2 = (vid v1 + 1)%Z /\
       vtype v1 = "ev"%string /\ vtype v2 = "ev"%string).
Proof.
  split; [|split].
  - intros sample e p c l fopt n m w s' Hn Hm Hrun.
    destruct (init_run_ok _ _ _ _ _ _ _ _ _ _ Hrun) as (E & Hev & _ & Hids & Hnext).
    exists E. rewrite Z2Nat.inj_add by assumption.
    split; [exact Hev|]. split; [exact Hids|].
    rewrite Hnext. lia.
  - intros vt s. rewrite generate_vehicle_eq. split; reflexivity.
  - intros [g w]. do 3 eexists. split.
    + cbn. rewrite <- app_assoc. cbn. unfold ret.
      replace (next_id g + 1 + 1)%Z with (next_id g + 2)%Z by lia.
      reflexivity.
    + cbn. repeat split.
Qed.

End InitRun.

(** ** Timing, failures and the base class *)

Section RunTiming.
Context {RNG : Type} `{Random RNG}.

(** C3: in a completed run every planned vehicle is preceded by exactly one
    timeout (the record is timeout, spawn, timeout, spawn, ...), and the
    [k]-th vehicle is spawned at the start time plus the sum of the first
    [k] sampled delays; with [n = 3], [m = 2], a sampler that always returns
    1.0 and a run started at time 0, the spawn times are 1, 2, 3, 4, 5. *)
Theorem spawn_times_are_delay_sums :
  (forall (s s' : St RNG) (n m : Z) (f : sampler RNG),
     normal_count (self s) = Some n -> ev_count (self s) = Some m ->
     interarrival_func (self s) = Some f ->
     CustomVehicleGenerator_run s = (Ok tt, s') ->
     exists E,
       events (world s') = events (world s) ++ E /\
       E = loop_trace (self s) (next_id (self s)) (now (world s))
                      (combine (spawned_types E) (delays_of E)) /\
       List.length (spawn_times E) = (Z.to_nat n + Z.to_nat m)%nat /\
       List.length (delays_of E) = List.length (spawn_times E) /\
       spawn_times E = cumul (now (world s)) (delays_of E) /\
       (forall k, (k < List.length (spawn_times E))%nat ->
          nth k (spawn_times E) 0 == now (world s) + qsum (firstn (S k) (delays_of E)))) /\
  (forall (s s' : St RNG) (f : sampler RNG),
     normal_count (self s) = Some 3%Z -> ev_count (self s) = Some 2%Z ->
     interarrival_func (self s) = Some f -> (forall r, fst (f r) = 1) ->
     now (world s) = 0 ->
     CustomVehicleGenerator_run s = (Ok tt, s') ->
     exists E, events (world s') = events (world s) ++ E /\
               spawn_times E = [1; 2; 3; 4; 5]).
Proof.
  assert (General : forall (s s' : St RNG) (n m : Z) (f : sampler RNG),
     normal_count (self s) = Some n -> ev_count (self s) = Some m ->
     interarrival_func (self s) = Some f ->
     CustomVehicleGenerator_run s = (Ok tt, s') ->
     exists plan ds,
       List.length plan = (Z.to_nat n + Z.to_nat m)%nat /\
       List.length ds = List.length plan /\
       (exists r0, fst (draws f r0 (List.length plan)) = ds) /\
       events (world s') = events (world s) ++
         loop_trace (self s) (next_id (self s)) (now (world s)) (combine plan ds)).
  { intros s s' n m f Hn Hm Hf Hrun.
    destruct (run_ok s s' n m f Hn Hm Hf Hrun)
      as (plan & r0 & ds & Hp & Hds & _ & _ & _ & _ & Hev).
    exists plan, ds.
    split; [rewrite <- (Permutation_length Hp), length_app, !repeat_length; reflexivity|].
    split; [rewrite <- Hds; apply draws_length|].
    split; [exists r0; exact Hds | exact Hev]. }
  split.
  - intros s s' n m f Hn Hm Hf Hrun.
    destruct (General s s' n m f Hn Hm Hf Hrun)
      as (plan & ds & Hlp & Hl & _ & Hev).
    eexists. split; [exact Hev|].
    rewrite spawned_types_loop_trace, delays_loop_trace, spawn_times_loop_trace
      by exact Hl.
    split; [reflexivity|].
    rewrite cumul_length, Hl, Hlp.
    split; [reflexivity|]. split; [reflexivity|]. split; [reflexivity|].
    intros k Hk. apply nth_cumul. lia.
  - intros s s' f Hn Hm Hf Hc H0 Hrun.
    destruct (General s s' 3%Z 2%Z f Hn Hm Hf Hrun)
      as (plan & ds & Hlp & Hl & [r0 Hds] & Hev).
    eexists. split; [exact Hev|].
    rewrite spawn_times_loop_trace by exact Hl.
    rewrite (draws_const f 1 r0 _ Hc) in Hds. rewrite Hlp in Hds.
    subst ds. rewrite H0. vm_compute. reflexivity.
Qed.

(** C5: when the sampler returns a negative delay at some iteration of the
    plan loop, [env.timeout] raises [ValueError] and the run stops there:
    the clock does not move, no timeout and no vehicle are recorded, and the
    rest of the plan is abandoned. *)
Theorem negative_delay_aborts (vt : string) (rest : list string) (f : sampler RNG)
  (s : St RNG) :
  interarrival_func (self s) = Some f ->
  fst (f (rng (world s))) < 0 ->
  run_loop (vt :: rest) s =
  (Err (ValueError "Negative delay"),
   mkSt (self s) (mkWorld (now (world s)) (snd (f (rng (world s)))) (events (world s)))).
Proof.
  intros Hf Hneg. cbn [run_loop].
  unfold bind at 1, getattr. rewrite Hf.
  unfold bind at 1, call_sampler.
  destruct (f (rng (world s))) as [d r1] eqn:Ef. cbn in Hneg |- *.
  unfold bind at 1, env_timeout. cbn. rewrite (Qltb_true d Hneg). reflexivity.
Qed.

(** C6: with [normal_count = 0] and [ev_count = 0] the run returns at once
    and leaves generator and environment exactly as they were: no timeout,
    no vehicle, no draw from the random source. It does not even read
    [interarrival_func]: it also completes on an object without that
    attribute. *)
Theorem empty_plan_run_is_noop (sample_interarrival : sampler RNG) (e p c l : ref)
  (fopt : option (sampler RNG)) (k : Z) (w : World RNG) :
  CustomVehicleGenerator_run
    (mkSt (CustomVehicleGenerator_init sample_interarrival e p c l fopt 0 0) w)
  = (Ok tt, mkSt (CustomVehicleGenerator_init sample_interarrival e p c l fopt 0 0) w) /\
  CustomVehicleGenerator_run (mkSt (mkGen e p c l k None (Some 0%Z) (Some 0%Z)) w)
  = (Ok tt, mkSt (mkGen e p c l k None (Some 0%Z) (Some 0%Z)) w).
Proof. split; reflexivity. Qed.

(** C7: [VehicleGenerator.run] and its override [CustomVehicleGenerator.run]
    have the same body; on every object and in every world they behave
    identically (same plan, same delays, same vehicles, same errors). *)
Theorem custom_run_equals_base_run (s : St RNG) :
  VehicleGenerator_run s = CustomVehicleGenerator_run s.
Proof. reflexivity. Qed.

(** C8: on an object built by [VehicleGenerator.__init__] alone, [run] fails
    at its first line with [AttributeError] on [normal_count], before
    building a plan, drawing a delay or spawning anything. *)
Theorem base_instance_run_fails (e p c l : ref) (w : World RNG) :
  VehicleGenerator_run (mkSt (VehicleGenerator_init e p c l) w)
  = (Err (AttributeError "normal_count"), mkSt (VehicleGenerator_init e p c l) w).
Proof. reflexivity. Qed.

End RunTiming.

(** ** Frame: what the generator changes, and what it only hands on *)

Section Frame.
Context {RNG : Type} `{Random RNG}.


Lemma framed_refl (s : St RNG) (Hs : self s = with_next_id (self s) (next_id (self s))) :
  framed s s.
Proof.
  split; [exact Hs|]. exists []. rewrite app_nil_r. split; [reflexivity|].
  intros t v [].
Qed.

Lemma with_next_id_eta (g : VehicleGenerator RNG) : g = with_next_id g (next_id g).
Proof. destruct g; reflexivity. Qed.

Lemma framed_same_world (s s' : St RNG) :
  self s' = self s -> events (world s') = events (world s) -> framed s s'.
Proof.
  intros Hs He. split.
  - rewrite Hs. apply with_next_id_eta.
  - exists []. rewrite app_nil_r. split; [exact He|]. intros t v [].
Qed.

Lemma framed_trans (s1 s2 s3 : St RNG) : framed s1 s2 -> framed s2 s3 -> framed s1 s3.
Proof.
  intros [H12 (E1 & He1 & Hc1)] [H23 (E2 & He2 & Hc2)]. split.
  - rewrite H23, H12. reflexivity.
  - exists (E1 ++ E2). split; [now rewrite He2, He1, app_assoc|].
    intros t v Hin. apply in_app_or in Hin as [Hin|Hin]; [now apply Hc1 in Hin|].
    apply Hc2 in Hin. rewrite H12 in Hin. exact Hin.
Qed.

Lemma bind_frames {A B} (m : M RNG A) (k : A -> M RNG B) :
  frames m -> (forall a, frames (k a)) -> frames (bind m k).
Proof.
  intros Hm Hk s. specialize (Hm s). unfold bind.
  destruct (m s) as [[a|e] s1]; cbn in *; [|exact Hm].
  eapply framed_trans; [exact Hm | apply Hk].
Qed.

Lemma ret_frames {A} (a : A) : frames (ret (RNG := RNG) a).
Proof. intros s. apply framed_same_world; reflexivity. Qed.

Lemma raise_frames {A} (e : exc) : frames (raise (RNG := RNG) (A := A) e).
Proof. intros s. apply framed_same_world; reflexivity. Qed.

Lemma getattr_frames {A} (name : string) (f : VehicleGenerator RNG -> option A) :
  frames (getattr name f).
Proof.
  intros s. unfold getattr. destruct (f (self s)); apply framed_same_world; reflexivity.
Qed.

Lemma getitem_frames {A} (x : list A) (i : nat) : frames (getitem (RNG := RNG) x i).
Proof. unfold getitem. destruct (nth_error x i); [apply ret_frames | apply raise_frames]. Qed.

Lemma rand_below_frames (n : nat) : frames (rand_below (RNG := RNG) n).
Proof.
  intros s. unfold rand_below. destruct (randbelow n (rng (world s))).
  apply framed_same_world; reflexivity.
Qed.

Lemma call_sampler_frames (f : sampler RNG) : frames (call_sampler f).
Proof.
  intros s. unfold call_sampler. destruct (f (rng (world s))).
  apply framed_same_world; reflexivity.
Qed.

Lemma env_timeout_frames (d : Q) : frames (env_timeout (RNG := RNG) d).
Proof.
  intros s. unfold env_timeout. destruct (Qltb d 0); cbn.
  - apply framed_same_world; reflexivity.
  - split; [apply with_next_id_eta|].
    exists [ETimeout d]. split; [reflexivity|].
    intros t v [Hin|[]]. discriminate.
Qed.

Lemma generate_vehicle_frames (vt : string) : frames (generate_vehicle (RNG := RNG) vt).
Proof.
  intros s. rewrite generate_vehicle_eq. cbn. split; [reflexivity|].
  eexists. split; [reflexivity|].
  intros t v [Hin|[]]. injection Hin as _ <-. cbn. repeat split.
Qed.

Lemma shuffle_loop_frames (i : nat) (x : list string) : frames (shuffle_loop (RNG := RNG) i x).
Proof.
  revert x; induction i as [|i IH]; intros x; cbn [shuffle_loop]; [apply ret_frames|].
  apply bind_frames; [apply rand_below_frames|intros j].
  apply bind_frames; [apply getitem_frames|intros xj].
  apply bind_frames; [apply getitem_frames|intros xi].
  apply IH.
Qed.

Lemma run_loop_frames (vts : list string) : frames (run_loop (RNG := RNG) vts).
Proof.
  induction vts as [|vt vts IH]; cbn [run_loop]; [apply ret_frames|].
  apply bind_frames; [apply getattr_frames|intros f].
  apply bind_frames; [apply call_sampler_frames|intros d].
  apply bind_frames; [apply env_timeout_frames|intros _].
  apply bind_frames; [apply generate_vehicle_frames|intros _].
  exact IH.
Qed.

Lemma run_frames : frames (CustomVehicleGenerator_run (RNG := RNG)).
Proof.
  unfold CustomVehicleGenerator_run.
  do 4 (apply bind_frames; [apply getattr_frames|intros ?]).
  apply bind_frames; [apply shuffle_loop_frames|intros vts].
  apply run_loop_frames.
Qed.

Lemma exec_frames (ops : list op) : frames (exec (RNG := RNG) ops).
Proof.
  induction ops as [|[vt|] ops IH]; cbn [exec]; [apply ret_frames| |].
  - apply bind_frames; [apply generate_vehicle_frames|intros _; exact IH].
  - apply bind_frames; [apply run_frames|intros _; exact IH].
Qed.

End Frame.

(** ** The references are opaque: renaming them commutes with every step *)

Section Opaque.
Context {RNG : Type} `{Random RNG}.


Lemma bind_commutes {A B} (m : M RNG A) (k : A -> M RNG B) :
  commutes m -> (forall a, commutes (k a)) -> commutes (bind m k).
Proof.
  intros Hm Hk h s. unfold bind. rewrite Hm.
  destruct (m s) as [[a|e] s1]; cbn; [apply Hk | reflexivity].
Qed.

Lemma ret_commutes {A} (a : A) : commutes (ret (RNG := RNG) a).
Proof. intros h s. reflexivity. Qed.

Lemma raise_commutes {A} (e : exc) : commutes (raise (RNG := RNG) (A := A) e).
Proof. intros h s. reflexivity. Qed.

Lemma getattr_commutes {A} (name : string) (f : VehicleGenerator RNG -> option A) :
  (forall h s, f (self (relabel h s)) = f (self s)) -> commutes (getattr name f).
Proof.
  intros Hf h s. unfold getattr. rewrite Hf. destruct (f (self s)); reflexivity.
Qed.

Lemma getitem_commutes {A} (x : list A) (i : nat) : commutes (getitem (RNG := RNG) x i).
Proof.
  unfold getitem. destruct (nth_error x i); [apply ret_commutes | apply raise_commutes].
Qed.

Lemma rand_below_commutes (n : nat) : commutes (rand_below (RNG := RNG) n).
Proof.
  intros h s. unfold rand_below. cbn. destruct (randbelow n (rng (world s))). reflexivity.
Qed.

Lemma call_sampler_commutes (f : sampler RNG) : commutes (call_sampler f).
Proof.
  intros h s. unfold call_sampler. cbn. destruct (f (rng (world s))). reflexivity.
Qed.

Lemma env_timeout_commutes (d : Q) : commutes (env_timeout (RNG := RNG) d).
Proof.
  intros h s. unfold env_timeout. destruct (Qltb d 0); [reflexivity|].
  unfold relabel. cbn. rewrite map_app. reflexivity.
Qed.

Lemma generate_vehicle_commutes (vt : string) : commutes (generate_vehicle (RNG := RNG) vt).
Proof.
  intros h s. rewrite !generate_vehicle_eq. unfold relabel. cbn.
  rewrite map_app. reflexivity.
Qed.

Lemma shuffle_loop_commutes (i : nat) (x : list string) :
  commutes (shuffle_loop (RNG := RNG) i x).
Proof.
  revert x; induction i as [|i IH]; intros x; cbn [shuffle_loop]; [apply ret_commutes|].
  apply bind_commutes; [apply rand_below_commutes|intros j].
  apply bind_commutes; [apply getitem_commutes|intros xj].
  apply bind_commutes; [apply getitem_commutes|intros xi].
  apply IH.
Qed.

Lemma run_loop_commutes (vts : list string) : commutes (run_loop (RNG := RNG) vts).
Proof.
  induction vts as [|vt vts IH]; cbn [run_loop]; [apply ret_commutes|].
  apply bind_commutes; [apply getattr_commutes; reflexivity|intros f].
  apply bind_commutes; [apply call_sampler_commutes|intros d].
  apply bind_commutes; [apply env_timeout_commutes|intros _].
  apply bind_commutes; [apply generate_vehicle_commutes|intros _].
  exact IH.
Qed.

Lemma run_commutes : commutes (CustomVehicleGenerator_run (RNG := RNG)).
Proof.
  unfold CustomVehicleGenerator_run.
  do 4 (apply bind_commutes; [apply getattr_commutes; reflexivity|intros ?]).
  apply bind_commutes; [apply shuffle_loop_commutes|intros vts].
  apply run_loop_commutes.
Qed.

Lemma exec_commutes (ops : list op) : commutes (exec (RNG := RNG) ops).
Proof.
  induction ops as [|[vt|] ops IH]; cbn [exec]; [apply ret_commutes| |].
  - apply bind_commutes; [apply generate_vehicle_commutes|intros _; exact IH].
  - apply bind_commutes; [apply run_commutes|intros _; exact IH].
Qed.

(** C9: after any sequence of [generate_vehicle] and [run] calls, the
    generator differs from the one it started as only in [next_id] (so
    [env], [parking_res], [charger_res] and [logger] are unchanged); every
    vehicle handed to the environment carries exactly those four references;
    and the generator never looks into them: running the same calls on a
    generator holding other references gives the same outcome, the same
    clock, random state, identifiers, types and delays, only with the
    references renamed. *)
Theorem scheduler_frame (ops : list op) (s : St RNG) (h : handles) :
  let s' := snd (exec ops s) in
  env (self s') = env (self s) /\ parking_res (self s') = parking_res (self s) /\
  charger_res (self s') = charger_res (self s) /\ logger (self s') = logger (self s) /\
  self s' = with_next_id (self s) (next_id (self s')) /\
  (exists E, events (world s') = events (world s) ++ E /\ carries_handles (self s) E) /\
  exec ops (relabel h s) = (fst (exec ops s), relabel h s').
Proof.
  cbn zeta.
  destruct (exec_frames ops s) as [Hself HE].
  split; [rewrite Hself; reflexivity|].
  split; [rewrite Hself; reflexivity|].
  split; [rewrite Hself; reflexivity|].
  split; [rewrite Hself; reflexivity|].
  split; [exact Hself|]. split; [exact HE|].
  apply exec_commutes.
Qed.

End Opaque.

(** ** Reproducibility *)

Section Replay.
Context {RNG : Type} `{Random RNG}.


Lemma replays_same_world {A} (m : M RNG A) :
  (forall s, events (world (snd (m s))) = events (world s)) ->
  (forall s1 s2, same_config s1 s2 ->
     fst (m s1) = fst (m s2) /\ same_config (snd (m s1)) (snd (m s2))) ->
  replays m.
Proof.
  intros He Hm s1 s2 Hc. destruct (Hm s1 s2 Hc) as [Hr Hc'].
  split; [exact Hr|]. split; [exact Hc'|].
  exists [], []. rewrite !app_nil_r, !He. repeat split.
Qed.

Lemma bind_replays {A B} (m : M RNG A) (k : A -> M RNG B) :
  replays m -> (forall a, replays (k a)) -> replays (bind m k).
Proof.
  intros Hm Hk s1 s2 Hc.
  destruct (Hm s1 s2 Hc) as (Hr & Hc1 & E1 & E2 & He1 & He2 & Ho).
  unfold bind.
  destruct (m s1) as [r1 t1], (m s2) as [r2 t2]; cbn in *. subst r2.
  destruct r1 as [a|e].
  - destruct (Hk a t1 t2 Hc1) as (Hr' & Hc2 & F1 & F2 & Hf1 & Hf2 & Hfo).
    split; [exact Hr'|]. split; [exact Hc2|].
    exists (E1 ++ F1), (E2 ++ F2).
    rewrite Hf1, Hf2, He1, He2, !app_assoc, !map_app, Ho, Hfo.
    repeat split.
  - split; [reflexivity|]. split; [exact Hc1|].
    exists E1, E2. repeat split; assumption.
Qed.

Lemma ret_replays {A} (a : A) : replays (ret (RNG := RNG) a).
Proof. apply replays_same_world; [reflexivity|]. intros s1 s2 Hc. split; [reflexivity|exact Hc]. Qed.

Lemma raise_replays {A} (e : exc) : replays (raise (RNG := RNG) (A := A) e).
Proof. apply replays_same_world; [reflexivity|]. intros s1 s2 Hc. split; [reflexivity|exact Hc]. Qed.

Lemma getattr_replays {A} (name : string) (f : VehicleGenerator RNG -> option A) :
  (forall s1 s2, same_config s1 s2 -> f (self s1) = f (self s2)) ->
  replays (getattr name f).
Proof.
  intros Hf. apply replays_same_world.
  - intros s. unfold getattr. destruct (f (self s)); reflexivity.
  - intros s1 s2 Hc. unfold getattr. rewrite (Hf s1 s2 Hc).
    destruct (f (self s2)); split; (reflexivity || exact Hc).
Qed.

Lemma getitem_replays {A} (x : list A) (i : nat) : replays (getitem (RNG := RNG) x i).
Proof.
  unfold getitem. destruct (nth_error x i); [apply ret_replays | apply raise_replays].
Qed.

Lemma rand_below_replays (n : nat) : replays (rand_below (RNG := RNG) n).
Proof.
  apply replays_same_world.
  - intros s. unfold rand_below. destruct (randbelow n (rng (world s))). reflexivity.
  - intros s1 s2 (Hr & Hf & Hn & Hm). unfold rand_below. rewrite Hr.
    destruct (randbelow n (rng (world s2))). cbn. repeat split; assumption.
Qed.

Lemma call_sampler_replays (f : sampler RNG) : replays (call_sampler f).
Proof.
  apply replays_same_world.
  - intros s. unfold call_sampler. destruct (f (rng (world s))). reflexivity.
  - intros s1 s2 (Hr & Hf & Hn & Hm). unfold call_sampler. rewrite Hr.
    destruct (f (rng (world s2))). cbn. repeat split; assumption.
Qed.

Lemma env_timeout_replays (d : Q) : replays (env_timeout (RNG := RNG) d).
Proof.
  intros s1 s2 Hc. unfold env_timeout. destruct (Qltb d 0); cbn.
  - split; [reflexivity|]. split; [exact Hc|].
    exists [], []. rewrite !app_nil_r. repeat split.
  - destruct Hc as (Hr & Hf & Hn & Hm).
    split; [reflexivity|]. split; [repeat split; assumption|].
    exists [ETimeout d], [ETimeout d]. repeat split.
Qed.

Lemma generate_vehicle_replays (vt : string) : replays (generate_vehicle (RNG := RNG) vt).
Proof.
  intros s1 s2 Hc. rewrite !generate_vehicle_eq. cbn.
  destruct Hc as (Hr & Hf & Hn & Hm).
  split; [reflexivity|]. split; [repeat split; assumption|].
  do 2 eexists. split; [reflexivity|]. split; [reflexivity|]. reflexivity.
Qed.

Lemma shuffle_loop_replays (i : nat) (x : list string) : replays (shuffle_loop (RNG := RNG) i x).
Proof.
  revert x; induction i as [|i IH]; intros x; cbn [shuffle_loop]; [apply ret_replays|].
  apply bind_replays; [apply rand_below_replays|intros j].
  apply bind_replays; [apply getitem_replays|intros xj].
  apply bind_replays; [apply getitem_replays|intros xi].
  apply IH.
Qed.

Lemma run_loop_replays (vts : list string) : replays (run_loop (RNG := RNG) vts).
Proof.
  induction vts as [|vt vts IH]; cbn [run_loop]; [apply ret_replays|].
  apply bind_replays; [apply getattr_replays; intros s1 s2 (_ & Hf & _); exact Hf|intros f].
  apply bind_replays; [apply call_sampler_replays|intros d].
  apply bind_replays; [apply env_timeout_replays|intros _].
  apply bind_replays; [apply generate_vehicle_replays|intros _].
  exact IH.
Qed.

Lemma run_replays : replays (CustomVehicleGenerator_run (RNG := RNG)).
Proof.
  unfold CustomVehicleGenerator_run.
  apply bind_replays; [apply getattr_replays; intros s1 s2 (_ & _ & Hn & _); exact Hn|intros ?].
  apply bind_replays; [apply getattr_replays; intros s1 s2 (_ & _ & _ & Hm); exact Hm|intros ?].
  apply bind_replays; [apply getattr_replays; intros s1 s2 (_ & _ & Hn & _); exact Hn|intros ?].
  apply bind_replays; [apply getattr_replays; intros s1 s2 (_ & _ & _ & Hm); exact Hm|intros ?].
  apply bind_replays; [apply shuffle_loop_replays|intros vts].
  apply run_loop_replays.
Qed.

Lemma observe_types_delays (E1 E2 : list event) :
  map observe E1 = map observe E2 ->
  spawned_types E1 = spawned_types E2 /\ delays_of E1 = delays_of E2.
Proof.
  unfold spawned_types.
  revert E2; induction E1 as [|e1 E1 IH]; intros [|e2 E2] Ho; try discriminate;
    [split; reflexivity|].
  cbn in Ho. injection Ho as He Ho. destruct (IH E2 Ho) as [Ht Hd].
  destruct e1 as [d1|t1 v1], e2 as [d2|t2 v2]; cbn in He |- *; try discriminate;
    injection He as He; cbn; rewrite ?He, ?Ht, ?Hd; split; reflexivity.
Qed.

(** C10: [run] has no hidden state. Two generators with the same counts and
    the same sampler, started on the same random state, end with the same
    outcome and the same random state, spawn the same sequence of types and
    wait the same sequence of delays, whatever their identifiers, references,
    clocks and past events. *)
Theorem run_reproducible (s1 s2 : St RNG) :
  rng (world s1) = rng (world s2) ->
  interarrival_func (self s1) = interarrival_func (self s2) ->
  normal_count (self s1) = normal_count (self s2) ->
  ev_count (self s1) = ev_count (self s2) ->
  fst (CustomVehicleGenerator_run s1) = fst (CustomVehicleGenerator_run s2) /\
  rng (world (snd (CustomVehicleGenerator_run s1)))
  = rng (world (snd (CustomVehicleGenerator_run s2))) /\
  exists E1 E2,
    events (world (snd (CustomVehicleGenerator_run s1))) = events (world s1) ++ E1 /\
    events (world (snd (CustomVehicleGenerator_run s2))) = events (world s2) ++ E2 /\
    spawned_types E1 = spawned_types E2 /\ delays_of E1 = delays_of E2.
Proof.
  intros Hr Hf Hn Hm.
  destruct (run_replays s1 s2 (conj Hr (conj Hf (conj Hn Hm))))
    as (Hres & (Hr' & _) & E1 & E2 & He1 & He2 & Ho).
  destruct (observe_types_delays E1 E2 Ho) as [Ht Hd].
  split; [exact Hres|]. split; [exact Hr'|].
  exists E1, E2. repeat split; assumption.
Qed.

End Replay.


(** ** Beyond the claims: shuffle, outcomes of [run], call sequences *)

Section Extra.
Context {RNG : Type} `{Random RNG}.

Lemma length_set_nth {A} (l : list A) (i : nat) (a : A) :
  List.length (set_nth l i a) = List.length l.
Proof.
  revert i; induction l as [|h t IH]; intros [|i]; cbn; try reflexivity.
  now rewrite IH.
Qed.

Lemma shuffle_loop_ok (Hr : randbelow_in_range (RNG := RNG)) (i : nat) (x : list string)
  (g : VehicleGenerator RNG) (t : Q) (r : RNG) (E : list event) :
  (i < List.length x)%nat \/ i = O ->
  exists y r',
    shuffle_loop i x (mkSt g (mkWorld t r E)) = (Ok y, mkSt g (mkWorld t r' E)) /\
    Permutation x y.
Proof.
  revert x r; induction i as [|i IH]; intros x r Hi.
  - exists x, r. split; reflexivity.
  - destruct Hi as [Hi|Hi]; [|discriminate].
    cbn [shuffle_loop]. unfold bind at 1, rand_below. cbn [world rng self now events].
    pose proof (Hr (S i + 1)%nat r ltac:(lia)) as Hj.
    destruct (randbelow (S i + 1) r) as [j r1] eqn:Er. cbn in Hj.
    destruct (nth_error x j) as [xj|] eqn:Ej;
      [|apply nth_error_None in Ej; lia].
    destruct (nth_error x (S i)) as [xi|] eqn:Ei;
      [|apply nth_error_None in Ei; lia].
    unfold bind at 1, getitem at 1. rewrite Ej. unfold ret.
    unfold bind at 1, getitem. rewrite Ei. unfold ret.
    destruct (IH (set_nth (set_nth x (S i) xj) j xi) r1) as (y & r' & Hy & Hp).
    { left. rewrite !length_set_nth. lia. }
    exists y, r'. split; [exact Hy|].
    eapply Permutation_trans; [|exact Hp]. apply swap_perm; assumption.
Qed.

Lemma shuffle_total (Hr : randbelow_in_range (RNG := RNG)) (x : list string) (s : St RNG) :
  exists y r',
    shuffle x s = (Ok y, mkSt (self s) (mkWorld (now (world s)) r' (events (world s)))) /\
    Permutation x y.
Proof.
  destruct s as [g [t r E]]. unfold shuffle.
  apply shuffle_loop_ok; [exact Hr|].
  destruct (List.length x); [right; reflexivity | left; lia].
Qed.

(** X1: with a random source whose [_randbelow(n)] stays in [0, n),
    [random.shuffle] never fails: it returns a permutation of its input and
    changes nothing but the random state. *)
Theorem shuffle_ok (Hr : randbelow_in_range (RNG := RNG)) (x : list string) (s : St RNG) :
  exists y r',
    shuffle x s = (Ok y, mkSt (self s) (mkWorld (now (world s)) r' (events (world s)))) /\
    Permutation x y.
Proof. exact (shuffle_total Hr x s). Qed.

Lemma Qltb_true_lt (d : Q) : Qltb d 0 = true -> d < 0.
Proof.
  unfold Qltb. intros E. destruct (Qle_bool 0 d) eqn:E'; [discriminate|].
  apply Qnot_le_lt. intros Hle. apply Qle_bool_iff in Hle. congruence.
Qed.

Lemma run_loop_outcome (vts : list string) (f : sampler RNG) (s : St RNG) :
  interarrival_func (self s) = Some f ->
  match run_loop vts s with
  | (r, s') =>
    exists k, (k <= List.length vts)%nat /\
      Forall (Qle 0) (fst (draws f (rng (world s)) k)) /\
      self s' = with_next_id (self s) (next_id (self s) + Z.of_nat k) /\
      now (world s') = fold_left Qplus (fst (draws f (rng (world s)) k)) (now (world s)) /\
      events (world s') = events (world s) ++
        loop_trace (self s) (next_id (self s)) (now (world s))
                   (combine (firstn k vts) (fst (draws f (rng (world s)) k))) /\
      ((r = Ok tt /\ k = List.length vts) \/
       (r = Err (ValueError "Negative delay") /\ (k < List.length vts)%nat /\
        fst (f (snd (draws f (rng (world s)) k))) < 0))
  end.
Proof.
  revert s; induction vts as [|vt rest IH]; intros s Hf.
  - cbn. exists O. destruct s as [g w]; cbn.
    rewrite Z.add_0_r, app_nil_r, <- with_next_id_eta.
    repeat (split || constructor).
  - destruct (f (rng (world s))) as [d r1] eqn:Ef.
    destruct (Qltb d 0) eqn:Hd.
    + cbn [run_loop]. unfold bind at 1, getattr. rewrite Hf.
      unfold bind at 1, call_sampler. rewrite Ef.
      unfold bind at 1, env_timeout. cbn [world self now rng events]. rewrite Hd.
      exists O. cbn. rewrite Z.add_0_r, app_nil_r, <- with_next_id_eta.
      split; [lia|]. split; [constructor|]. do 3 (split; [reflexivity|]).
      right. split; [reflexivity|]. split; [lia|].
      rewrite Ef. cbn. apply Qltb_true_lt. exact Hd.
    + rewrite (run_loop_cons_step vt rest f s d r1 Hf Ef Hd).
      match goal with |- context [run_loop rest ?s1] =>
        specialize (IH s1 Hf); destruct (run_loop rest s1) as [r s'] end.
      cbn [self world rng now events] in IH.
      destruct IH as (k & Hk & Hds & Hself & Hnow & Hev & Hout).
      exists (S k). cbn [draws firstn List.length]. rewrite Ef.
      destruct (draws f r1 k) as [ds r2] eqn:Edr. cbn [fst snd] in *.
      split; [lia|].
      split; [constructor; [apply Qltb_false; exact Hd | exact Hds]|].
      split; [rewrite Hself; unfold with_next_id; cbn; f_equal; lia|].
      split; [exact Hnow|].
      split.
      * rewrite Hev, loop_trace_with_next_id. cbn. now rewrite <- !app_assoc.
      * destruct Hout as [(-> & ->) | (-> & Hlt & Hneg)];
          [left; split; reflexivity | right; split; [reflexivity|]; split; [lia|exact Hneg]].
Qed.

Lemma getattr_some {A} (name : string) (f : VehicleGenerator RNG -> option A) (s : St RNG) (a : A) :
  f (self s) = Some a -> getattr name f s = (Ok a, s).
Proof. intros E. unfold getattr. now rewrite E. Qed.

Lemma run_result (Hr : randbelow_in_range (RNG := RNG)) (s : St RNG) (n m : Z)
  (f : sampler RNG) :
  normal_count (self s) = Some n -> ev_count (self s) = Some m ->
  interarrival_func (self s) = Some f ->
  match CustomVehicleGenerator_run s with
  | (r, s') =>
    exists plan r0 k,
      Permutation (repeat "normal"%string (Z.to_nat n) ++ repeat "ev"%string (Z.to_nat m)) plan /\
      (k <= List.length plan)%nat /\
      Forall (Qle 0) (fst (draws f r0 k)) /\
      self s' = with_next_id (self s) (next_id (self s) + Z.of_nat k) /\
      now (world s') = fold_left Qplus (fst (draws f r0 k)) (now (world s)) /\
      events (world s') = events (world s) ++
        loop_trace (self s) (next_id (self s)) (now (world s))
                   (combine (firstn k plan) (fst (draws f r0 k))) /\
      ((r = Ok tt /\ k = List.length plan) \/
       (r = Err (ValueError "Negative delay") /\ (k < List.length plan)%nat /\
        fst (f (snd (draws f r0 k))) < 0))
  end.
Proof.
  intros Hn Hm Hf.
  unfold CustomVehicleGenerator_run.
  rewrite (bind_ok _ _ s s n (getattr_some _ _ s n Hn)). cbv beta.
  rewrite (bind_ok _ _ s s m (getattr_some _ _ s m Hm)). cbv beta.
  rewrite (bind_ok _ _ s s n (getattr_some _ _ s n Hn)). cbv beta.
  rewrite (bind_ok _ _ s s m (getattr_some _ _ s m Hm)). cbv beta.
  match goal with |- context [bind (shuffle ?x) _ s] =>
    destruct (shuffle_total Hr x s) as (plan & r0 & Hsh & Hp) end.
  rewrite (bind_ok _ _ _ _ _ Hsh).
  set (s1 := mkSt (self s) (mkWorld (now (world s)) r0 (events (world s)))).
  assert (Hf1 : interarrival_func (self s1) = Some f) by exact Hf.
  pose proof (run_loop_outcome plan f s1 Hf1) as Hl.
  destruct (run_loop plan s1) as [res s'].
  destruct Hl as (k & Hk & Hds & Hself & Hnow & Hev & Hout).
  exists plan, r0, k. split; [exact Hp|]. split; [exact Hk|].
  split; [exact Hds|]. split; [exact Hself|]. split; [exact Hnow|].
  split; [exact Hev|]. exact Hout.
Qed.

(** X2: outcome of [run] on a generator with its counts and sampler set
    (and a random source whose [_randbelow] stays in range): it shuffles the
    configured plan, then for some [k] it has waited the first [k] sampled
    delays (all non-negative) and spawned the first [k] planned vehicles,
    each right after its timeout, numbered from [next_id]. Either [k] is the
    whole plan and the run succeeded, or the [k+1]-th sampled delay was
    negative and the run stopped with [ValueError] there, the [k] vehicles
    already started staying started. *)
Theorem run_outcome (Hr : randbelow_in_range (RNG := RNG)) (s : St RNG) (n m : Z)
  (f : sampler RNG) :
  normal_count (self s) = Some n -> ev_count (self s) = Some m ->
  interarrival_func (self s) = Some f ->
  match CustomVehicleGenerator_run s with
  | (r, s') =>
    exists plan r0 k,
      Permutation (repeat "normal"%string (Z.to_nat n) ++ repeat "ev"%string (Z.to_nat m)) plan /\
      (k <= List.length plan)%nat /\
      Forall (Qle 0) (fst (draws f r0 k)) /\
      self s' = with_next_id (self s) (next_id (self s) + Z.of_nat k) /\
      now (world s') = fold_left Qplus (fst (draws f r0 k)) (now (world s)) /\
      events (world s') = events (world s) ++
        loop_trace (self s) (next_id (self s)) (now (world s))
                   (combine (firstn k plan) (fst (draws f r0 k))) /\
      ((r = Ok tt /\ k = List.length plan) \/
       (r = Err (ValueError "Negative delay") /\ (k < List.length plan)%nat /\
        fst (f (snd (draws f r0 k))) < 0))
  end.
Proof. exact (run_result Hr s n m f). Qed.


Lemma run_total (Hr : randbelow_in_range (RNG := RNG)) (s : St RNG) (n m : Z)
  (f : sampler RNG) :
  normal_count (self s) = Some n -> ev_count (self s) = Some m ->
  interarrival_func (self s) = Some f ->
  (forall r, 0 <= fst (f r)) ->
  fst (CustomVehicleGenerator_run s) = Ok tt.
Proof.
  intros Hn Hm Hf Hnn.
  pose proof (run_result Hr s n m f Hn Hm Hf) as Ho.
  destruct (CustomVehicleGenerator_run s) as [res s'].
  destruct Ho as (plan & r0 & k & _ & _ & _ & _ & _ & _ & [(-> & _) | (_ & _ & Hneg)]);
    [reflexivity|].
  exfalso. apply (Qlt_not_le _ _ Hneg). apply Hnn.
Qed.

(** X3: if the sampler never returns a negative delay (and [_randbelow]
    stays in range), [run] on a generator with its counts and sampler set
    always completes without an exception. *)
Theorem run_completes (Hr : randbelow_in_range (RNG := RNG)) (s : St RNG) (n m : Z)
  (f : sampler RNG) :
  normal_count (self s) = Some n -> ev_count (self s) = Some m ->
  interarrival_func (self s) = Some f ->
  (forall r, 0 <= fst (f r)) ->
  fst (CustomVehicleGenerator_run s) = Ok tt.
Proof. exact (run_total Hr s n m f). Qed.


(** *** Identifiers over any sequence of calls *)

Lemma map_seq_offset (id : Z) (a b c : nat) :
  map (fun k => id + Z.of_nat k)%Z (seq (a + c) b)
  = map (fun k => (id + Z.of_nat a) + Z.of_nat k)%Z (seq c b).
Proof.
  revert c; induction b as [|b IH]; intros c; cbn; [reflexivity|].
  f_equal; [lia|]. rewrite <- IH. f_equal. f_equal. lia.
Qed.

Lemma ids_from_trans (s1 s2 s3 : St RNG) : ids_from s1 s2 -> ids_from s2 s3 -> ids_from s1 s3.
Proof.
  intros (E1 & He1 & Hv1 & Hn1) (E2 & He2 & Hv2 & Hn2).
  exists (E1 ++ E2). rewrite He2, He1, app_assoc. split; [reflexivity|].
  rewrite spawned_app, length_app, map_app, Hv1, Hv2, seq_app, map_app, Hn1.
  split.
  - f_equal. replace (0 + List.length (spawned E1))%nat
      with (List.length (spawned E1) + 0)%nat by lia.
    symmetry. apply map_seq_offset.
  - rewrite Hn2, Hn1. lia.
Qed.

Lemma numbers_same_world {A} (m : M RNG A) :
  (forall s, self (snd (m s)) = self s /\ events (world (snd (m s))) = events (world s)) ->
  numbers m.
Proof.
  intros Hm s. destruct (Hm s) as [Hs He]. exists []. rewrite app_nil_r, He, Hs.
  cbn. split; [reflexivity|]. split; [reflexivity|]. lia.
Qed.

Lemma bind_numbers {A B} (m : M RNG A) (k : A -> M RNG B) :
  numbers m -> (forall a, numbers (k a)) -> numbers (bind m k).
Proof.
  intros Hm Hk s. specialize (Hm s). unfold bind.
  destruct (m s) as [[a|e] s1]; cbn in *; [|exact Hm].
  eapply ids_from_trans; [exact Hm | apply Hk].
Qed.

Lemma getattr_numbers {A} (name : string) (f : VehicleGenerator RNG -> option A) :
  numbers (getattr name f).
Proof.
  apply numbers_same_world. intros s. unfold getattr. destruct (f (self s)); split; reflexivity.
Qed.

Lemma getitem_numbers {A} (x : list A) (i : nat) : numbers (getitem (RNG := RNG) x i).
Proof.
  apply numbers_same_world. intros s. unfold getitem.
  destruct (nth_error x i); split; reflexivity.
Qed.

Lemma rand_below_numbers (n : nat) : numbers (rand_below (RNG := RNG) n).
Proof.
  apply numbers_same_world. intros s. unfold rand_below.
  destruct (randbelow n (rng (world s))). split; reflexivity.
Qed.

Lemma call_sampler_numbers (f : sampler RNG) : numbers (call_sampler f).
Proof.
  apply numbers_same_world. intros s. unfold call_sampler.
  destruct (f (rng (world s))). split; reflexivity.
Qed.

Lemma env_timeout_numbers (d : Q) : numbers (env_timeout (RNG := RNG) d).
Proof.
  intros s. unfold env_timeout. destruct (Qltb d 0); cbn.
  - exists []. rewrite app_nil_r. cbn. split; [reflexivity|]. split; [reflexivity|]. lia.
  - exists [ETimeout d]. cbn. split; [reflexivity|]. split; [reflexivity|]. lia.
Qed.

Lemma generate_vehicle_numbers (vt : string) : numbers (generate_vehicle (RNG := RNG) vt).
Proof.
  intros s. rewrite generate_vehicle_eq. eexists. cbn. split; [reflexivity|].
  split; [cbn; f_equal; lia | reflexivity].
Qed.

Lemma exec_numbers_all (ops : list op) : numbers (exec (RNG := RNG) ops).
Proof.
  assert (Hsh : forall i x, numbers (shuffle_loop (RNG := RNG) i x)).
  { induction i as [|i IH]; intros x; cbn [shuffle_loop];
      [apply numbers_same_world; intros; split; reflexivity|].
    apply bind_numbers; [apply rand_below_numbers|intros j].
    apply bind_numbers; [apply getitem_numbers|intros xj].
    apply bind_numbers; [apply getitem_numbers|intros xi].
    apply IH. }
  assert (Hl : forall vts, numbers (run_loop (RNG := RNG) vts)).
  { induction vts as [|vt vts IH]; cbn [run_loop];
      [apply numbers_same_world; intros; split; reflexivity|].
    apply bind_numbers; [apply getattr_numbers|intros f].
    apply bind_numbers; [apply call_sampler_numbers|intros d].
    apply bind_numbers; [apply env_timeout_numbers|intros _].
    apply bind_numbers; [apply generate_vehicle_numbers|intros _].
    exact IH. }
  assert (Hrun : numbers (CustomVehicleGenerator_run (RNG := RNG))).
  { unfold CustomVehicleGenerator_run.
    do 4 (apply bind_numbers; [apply getattr_numbers|intros ?]).
    apply bind_numbers; [apply Hsh|intros vts]. apply Hl. }
  induction ops as [|[vt|] ops IH]; cbn [exec];
    [apply numbers_same_world; intros; split; reflexivity| |].
  - apply bind_numbers; [apply generate_vehicle_numbers|intros _; exact IH].
  - apply bind_numbers; [exact Hrun|intros _; exact IH].
Qed.

(** X4: over any sequence of [generate_vehicle] and [run] calls, whatever
    their outcome (a run stopped by an exception included), the vehicles
    started are numbered [next_id, next_id + 1, ...] in start order, with
    no gap and no reuse, and [next_id] ends just past the last one: the
    counter is never reset, not even by a second [run]. *)
Theorem ids_consecutive_over_calls (ops : list op) (s : St RNG) :
  exists E,
    events (world (snd (exec ops s))) = events (world s) ++ E /\
    map vid (spawned E)
    = map (fun k => next_id (self s) + Z.of_nat k)%Z (seq 0 (List.length (spawned E))) /\
    next_id (self (snd (exec ops s))) = (next_id (self s) + Z.of_nat (List.length (spawned E)))%Z.
Proof. exact (exec_numbers_all ops s). Qed.

(** *** The clock over any sequence of calls *)

Lemma spawn_times_app (E1 E2 : list event) :
  spawn_times (E1 ++ E2) = spawn_times E1 ++ spawn_times E2.
Proof.
  induction E1 as [|[d|t v] E1 IH]; cbn; [reflexivity | exact IH | now rewrite IH].
Qed.

Lemma ssorted_app_bound (l1 l2 : list Q) (b : Q) :
  StronglySorted Qle l1 -> StronglySorted Qle l2 ->
  Forall (fun t => t <= b) l1 -> Forall (fun t => b <= t) l2 ->
  StronglySorted Qle (l1 ++ l2).
Proof.
  intros S1 S2 B1 B2. induction l1 as [|a l1 IH]; cbn; [exact S2|].
  apply StronglySorted_inv in S1 as [S1 Fa]. inversion B1 as [|? ? Ha B1']; subst.
  constructor; [apply IH; assumption|].
  apply Forall_app. split; [exact Fa|].
  eapply Forall_impl; [|exact B2]. intros t Ht. eapply Qle_trans; eassumption.
Qed.

Lemma clock_from_trans (s1 s2 s3 : St RNG) :
  clock_from s1 s2 -> clock_from s2 s3 -> clock_from s1 s3.
Proof.
  intros (N1 & E1 & He1 & S1 & B1) (N2 & E2 & He2 & S2 & B2).
  split; [eapply Qle_trans; eassumption|].
  exists (E1 ++ E2). rewrite He2, He1, app_assoc. split; [reflexivity|].
  rewrite spawn_times_app. split.
  - apply (ssorted_app_bound _ _ (now (world s2))); try assumption.
    + eapply Forall_impl; [|exact B1]. intros t [_ Ht]; exact Ht.
    + eapply Forall_impl; [|exact B2]. intros t [Ht _]; exact Ht.
  - apply Forall_app. split.
    + eapply Forall_impl; [|exact B1]. intros t [Ha Hb].
      split; [exact Ha | eapply Qle_trans; eassumption].
    + eapply Forall_impl; [|exact B2]. intros t [Ha Hb].
      split; [eapply Qle_trans; eassumption | exact Hb].
Qed.

Lemma clock_same_world {A} (m : M RNG A) :
  (forall s, now (world (snd (m s))) = now (world s) /\
             events (world (snd (m s))) = events (world s)) ->
  keeps_clock m.
Proof.
  intros Hm s. destruct (Hm s) as [Hn He]. unfold clock_from. rewrite Hn.
  split; [apply Qle_refl|]. exists []. rewrite app_nil_r.
  split; [exact He|]. split; constructor.
Qed.

Lemma bind_keeps_clock {A B} (m : M RNG A) (k : A -> M RNG B) :
  keeps_clock m -> (forall a, keeps_clock (k a)) -> keeps_clock (bind m k).
Proof.
  intros Hm Hk s. specialize (Hm s). unfold bind.
  destruct (m s) as [[a|e] s1]; cbn in *; [|exact Hm].
  eapply clock_from_trans; [exact Hm | apply Hk].
Qed.

Lemma env_timeout_keeps_clock (d : Q) : keeps_clock (env_timeout (RNG := RNG) d).
Proof.
  intros s. unfold env_timeout. destruct (Qltb d 0) eqn:Hd; cbn.
  - split; [apply Qle_refl|]. exists []. rewrite app_nil_r.
    split; [reflexivity|]. split; constructor.
  - apply Qltb_false in Hd. split.
    + rewrite <- (Qplus_0_r (now (world s))) at 1.
      apply Qplus_le_compat; [apply Qle_refl | exact Hd].
    + exists [ETimeout d]. split; [reflexivity|]. split; constructor.
Qed.

Lemma generate_vehicle_keeps_clock (vt : string) : keeps_clock (generate_vehicle (RNG := RNG) vt).
Proof.
  intros s. rewrite generate_vehicle_eq. cbn. split; [apply Qle_refl|].
  eexists. split; [reflexivity|]. cbn. split.
  - repeat constructor.
  - repeat constructor; apply Qle_refl.
Qed.

Lemma exec_keeps_clock_all (ops : list op) : keeps_clock (exec (RNG := RNG) ops).
Proof.
  assert (Hsh : forall i x, keeps_clock (shuffle_loop (RNG := RNG) i x)).
  { intros i x. apply clock_same_world. intros s.
    pose proof (shuffle_loop_frame i x s) as Hf.
    destruct (shuffle_loop i x s) as [r s']. destruct Hf as (_ & Hn & He & _).
    split; assumption. }
  assert (Hget : forall {A} name (f : VehicleGenerator RNG -> option A),
             keeps_clock (getattr name f)).
  { intros A name f. apply clock_same_world. intros s. unfold getattr.
    destruct (f (self s)); split; reflexivity. }
  assert (Hl : forall vts, keeps_clock (run_loop (RNG := RNG) vts)).
  { induction vts as [|vt vts IH]; cbn [run_loop];
      [apply clock_same_world; intros; split; reflexivity|].
    apply bind_keeps_clock; [apply Hget|intros f].
    apply bind_keeps_clock.
    { apply clock_same_world. intros s. unfold call_sampler.
      destruct (f (rng (world s))). split; reflexivity. }
    intros d.
    apply bind_keeps_clock; [apply env_timeout_keeps_clock|intros _].
    apply bind_keeps_clock; [apply generate_vehicle_keeps_clock|intros _].
    exact IH. }
  assert (Hrun : keeps_clock (CustomVehicleGenerator_run (RNG := RNG))).
  { unfold CustomVehicleGenerator_run.
    do 4 (apply bind_keeps_clock; [apply Hget|intros ?]).
    apply bind_keeps_clock; [apply Hsh|intros vts]. apply Hl. }
  induction ops as [|[vt|] ops IH]; cbn [exec];
    [apply clock_same_world; intros; split; reflexivity| |].
  - apply bind_keeps_clock; [apply generate_vehicle_keeps_clock|intros _; exact IH].
  - apply bind_keeps_clock; [exact Hrun|intros _; exact IH].
Qed.

(** X5: over any sequence of [generate_vehicle] and [run] calls, whatever
    their outcome, the simulated clock never goes back, and the vehicles are
    started in non-decreasing time order, all between the clock at the
    start and the clock at the end. *)
Theorem clock_monotone_over_calls (ops : list op) (s : St RNG) :
  now (world s) <= now (world (snd (exec ops s))) /\
  exists E,
    events (world (snd (exec ops s))) = events (world s) ++ E /\
    StronglySorted Qle (spawn_times E) /\
    Forall (fun t => now (world s) <= t /\ t <= now (world (snd (exec ops s))))
           (spawn_times E).
Proof. exact (exec_keeps_clock_all ops s). Qed.

(** *** Direct calls of [generate_vehicle] *)

Lemma spawn_events_with_next_id (g : VehicleGenerator RNG) (n id : Z) (t : Q) (vts : list string) :
  spawn_events (with_next_id g n) id t vts = spawn_events g id t vts.
Proof.
  revert id; induction vts as [|vt vts IH]; intros id; cbn; [reflexivity|].
  rewrite IH. reflexivity.
Qed.

(** X6: calling [generate_vehicle] directly for each type of a list never
    fails, on any generator (one built by [VehicleGenerator.__init__], with
    no counts and no sampler, included), draws no random number and does
    not advance the clock: it starts one vehicle per type, in list order,
    all at the current time, numbered from [next_id], and advances
    [next_id] by the length of the list. *)
Theorem direct_spawns (vts : list string) (s : St RNG) :
  exec (map Spawn vts) s =
  (Ok tt,
   mkSt (with_next_id (self s) (next_id (self s) + Z.of_nat (List.length vts)))
        (mkWorld (now (world s)) (rng (world s))
                 (events (world s) ++ spawn_events (self s) (next_id (self s)) (now (world s)) vts))).
Proof.
  revert s; induction vts as [|vt vts IH]; intros [g [t r E]]; cbn [map exec List.length].
  - unfold ret. cbn. rewrite app_nil_r, Z.add_0_r, <- with_next_id_eta. reflexivity.
  - unfold bind at 1. rewrite generate_vehicle_eq. cbn [fst snd self world now rng events].
    rewrite IH. cbn [self world now rng events next_id with_next_id].
    rewrite <- app_assoc. cbn [app spawn_events].
    rewrite spawn_events_with_next_id.
    replace (next_id g + Z.of_nat (S (List.length vts)))%Z
      with (next_id g + 1 + Z.of_nat (List.length vts))%Z by lia.
    destruct g; reflexivity.
Qed.

(** *** Repeated runs *)

Lemma run_step (Hr : randbelow_in_range (RNG := RNG)) (s : St RNG) (n m : Z)
  (f : sampler RNG) :
  normal_count (self s) = Some n -> ev_count (self s) = Some m ->
  interarrival_func (self s) = Some f ->
  (forall r, 0 <= fst (f r)) ->
  exists s1 E,
    CustomVehicleGenerator_run s = (Ok tt, s1) /\
    self s1 = with_next_id (self s) (next_id (self s) + Z.of_nat (Z.to_nat n + Z.to_nat m)) /\
    events (world s1) = events (world s) ++ E /\
    Permutation (repeat "normal"%string (Z.to_nat n) ++ repeat "ev"%string (Z.to_nat m))
                (spawned_types E).
Proof.
  intros Hn Hm Hf Hnn.
  pose proof (run_total Hr s n m f Hn Hm Hf Hnn) as Hc.
  destruct (CustomVehicleGenerator_run s) as [res s1] eqn:Hrun. cbn in Hc. subst res.
  destruct (run_ok s s1 n m f Hn Hm Hf Hrun)
    as (plan & r0 & ds & Hp & Hds & _ & _ & Hself & _ & Hev).
  assert (Hl : List.length ds = List.length plan)
    by (rewrite <- Hds; apply draws_length).
  assert (Hlp : List.length plan = (Z.to_nat n + Z.to_nat m)%nat)
    by (rewrite <- (Permutation_length Hp), length_app, !repeat_length; reflexivity).
  exists s1, (loop_trace (self s) (next_id (self s)) (now (world s)) (combine plan ds)).
  split; [reflexivity|]. split; [rewrite Hself, Hlp; reflexivity|].
  split; [exact Hev|]. rewrite spawned_types_loop_trace by exact Hl. exact Hp.
Qed.

Lemma spawned_types_app (E1 E2 : list event) :
  spawned_types (E1 ++ E2) = spawned_types E1 ++ spawned_types E2.
Proof. unfold spawned_types. rewrite spawned_app. apply map_app. Qed.

(** X7: [run] can be called again and again: with a sampler that never
    returns a negative delay (and [_randbelow] in range), [k] successive
    runs all complete; they spawn [k * n] "normal" and [k * m] "ev"
    vehicles ([n], [m] the stored counts, negative ones counting as 0), the
    counts being neither consumed nor changed, and [next_id] ends
    [k * (n + m)] further on, the counter never being reset. *)
Theorem repeated_runs (Hr : randbelow_in_range (RNG := RNG)) (s : St RNG) (n m : Z)
  (f : sampler RNG) (k : nat) :
  normal_count (self s) = Some n -> ev_count (self s) = Some m ->
  interarrival_func (self s) = Some f ->
  (forall r, 0 <= fst (f r)) ->
  fst (exec (repeat Run k) s) = Ok tt /\
  exists E,
    events (world (snd (exec (repeat Run k) s))) = events (world s) ++ E /\
    count_occ string_dec (spawned_types E) "normal"%string = (k * Z.to_nat n)%nat /\
    count_occ string_dec (spawned_types E) "ev"%string = (k * Z.to_nat m)%nat /\
    next_id (self (snd (exec (repeat Run k) s)))
    = (next_id (self s) + Z.of_nat (k * (Z.to_nat n + Z.to_nat m)))%Z.
Proof.
  revert s; induction k as [|k IH]; intros s Hn Hm Hf Hnn.
  - cbn. unfold ret. cbn. split; [reflexivity|]. exists [].
    rewrite app_nil_r. repeat split; lia.
  - destruct (run_step Hr s n m f Hn Hm Hf Hnn) as (s1 & E1 & Hrun & Hself & Hev & Hp).
    cbn [repeat exec]. rewrite (bind_ok _ _ _ _ _ Hrun).
    assert (Hn1 : normal_count (self s1) = Some n) by (rewrite Hself; exact Hn).
    assert (Hm1 : ev_count (self s1) = Some m) by (rewrite Hself; exact Hm).
    assert (Hf1 : interarrival_func (self s1) = Some f) by (rewrite Hself; exact Hf).
    destruct (IH s1 Hn1 Hm1 Hf1 Hnn) as (Hok & E2 & Hev2 & Cn2 & Cm2 & Hid2).
    split; [exact Hok|]. exists (E1 ++ E2).
    rewrite Hev2, Hev, app_assoc. split; [reflexivity|].
    destruct (count_configured (Z.to_nat n) (Z.to_nat m)) as [Cn Cm].
    rewrite spawned_types_app, !count_occ_app,
      <- !(proj1 (Permutation_count_occ string_dec _ _) Hp), Cn, Cm, Cn2, Cm2.
    split; [lia|]. split; [lia|].
    rewrite Hid2, Hself. cbn [next_id with_next_id]. lia.
Qed.

End Extra.

(** ** The claims at concrete inputs *)

Lemma run_spawns_configured_mix_witness :
  (0 <= 3)%Z /\ (0 <= 2)%Z /\
  CustomVehicleGenerator_run (st0 3 2) = (Ok tt, snd (run0 3 2)) /\
  exists E,
    events (world (snd (run0 3 2))) = [] ++ E /\
    Permutation (spawned_types E)
                (repeat "normal"%string (Z.to_nat 3) ++ repeat "ev"%string (Z.to_nat 2)) /\
    Z.of_nat (List.length (spawned E)) = (3 + 2)%Z /\
    Z.of_nat (count_occ string_dec (spawned_types E) "normal"%string) = 3%Z /\
    Z.of_nat (count_occ string_dec (spawned_types E) "ev"%string) = 2%Z.
Proof.
  assert (Hrun : CustomVehicleGenerator_run (st0 3 2) = (Ok tt, snd (run0 3 2)))
    by (vm_compute; reflexivity).
  split; [lia|]. split; [lia|]. split; [exact Hrun|].
  exact (run_spawns_configured_mix (const_sampler 2) 1%N 2%N 3%N 4%N
           (Some (const_sampler 1)) 3%Z 2%Z (mkWorld 0 0%nat []) (snd (run0 3 2))
           ltac:(lia) ltac:(lia) Hrun).
Defined.

Lemma identifiers_consecutive_witness :
  (0 <= 3)%Z /\ (0 <= 2)%Z /\
  CustomVehicleGenerator_run (st0 3 2) = (Ok tt, snd (run0 3 2)) /\
  exists E,
    events (world (snd (run0 3 2))) = [] ++ E /\
    map vid (spawned E) = map Z.of_nat (seq 0 (Z.to_nat (3 + 2))) /\
    next_id (self (snd (run0 3 2))) = (3 + 2)%Z.
Proof.
  assert (Hrun : CustomVehicleGenerator_run (st0 3 2) = (Ok tt, snd (run0 3 2)))
    by (vm_compute; reflexivity).
  split; [lia|]. split; [lia|]. split; [exact Hrun|].
  exact (proj1 identifiers_consecutive (const_sampler 2) 1%N 2%N 3%N 4%N
           (Some (const_sampler 1)) 3%Z 2%Z (mkWorld 0 0%nat []) (snd (run0 3 2))
           ltac:(lia) ltac:(lia) Hrun).
Defined.

Lemma spawn_times_are_delay_sums_witness :
  normal_count (self (st0 3 2)) = Some 3%Z /\ ev_count (self (st0 3 2)) = Some 2%Z /\
  interarrival_func (self (st0 3 2)) = Some (const_sampler 1) /\
  (forall r, fst (const_sampler 1 r) = 1) /\ now (world (st0 3 2)) = 0 /\
  CustomVehicleGenerator_run (st0 3 2) = (Ok tt, snd (run0 3 2)) /\
  (exists E, events (world (snd (run0 3 2))) = events (world (st0 3 2)) ++ E /\
             spawn_times E = [1; 2; 3; 4; 5]) /\
  (exists E,
     events (world (snd (run0 3 2))) = events (world (st0 3 2)) ++ E /\
     E = loop_trace (self (st0 3 2)) (next_id (self (st0 3 2))) (now (world (st0 3 2)))
                    (combine (spawned_types E) (delays_of E)) /\
     List.length (spawn_times E) = (Z.to_nat 3 + Z.to_nat 2)%nat /\
     List.length (delays_of E) = List.length (spawn_times E) /\
     spawn_times E = cumul (now (world (st0 3 2))) (delays_of E) /\
     (forall k, (k < List.length (spawn_times E))%nat ->
        nth k (spawn_times E) 0 == now (world (st0 3 2)) + qsum (firstn (S k) (delays_of E)))).
Proof.
  assert (Hrun : CustomVehicleGenerator_run (st0 3 2) = (Ok tt, snd (run0 3 2)))
    by (vm_compute; reflexivity).
  assert (Hc : forall r, fst (const_sampler 1 r) = 1) by (intros r; reflexivity).
  split; [reflexivity|]. split; [reflexivity|]. split; [reflexivity|].
  split; [exact Hc|]. split; [reflexivity|]. split; [exact Hrun|]. split.
  - exact (proj2 spawn_times_are_delay_sums (st0 3 2) (snd (run0 3 2)) (const_sampler 1)
             eq_refl eq_refl eq_refl Hc eq_refl Hrun).
  - exact (proj1 spawn_times_are_delay_sums (st0 3 2) (snd (run0 3 2)) 3%Z 2%Z (const_sampler 1)
             eq_refl eq_refl eq_refl Hrun).
Defined.

Lemma init_accepts_any_counts_witness :
  normal_count (gen0 (-1) 2) = Some (-1)%Z /\ ev_count (gen0 (-1) 2) = Some 2%Z /\
  CustomVehicleGenerator_run (st0 (-1) 2) = (Ok tt, snd (run0 (-1) 2)) /\
  exists E,
    events (world (snd (run0 (-1) 2))) = [] ++ E /\
    count_occ string_dec (spawned_types E) "normal"%string = Z.to_nat (-1) /\
    count_occ string_dec (spawned_types E) "ev"%string = Z.to_nat 2 /\
    List.length (spawned E) = (Z.to_nat (-1) + Z.to_nat 2)%nat.
Proof.
  assert (Hrun : CustomVehicleGenerator_run (st0 (-1) 2) = (Ok tt, snd (run0 (-1) 2)))
    by (vm_compute; reflexivity).
  destruct (init_accepts_any_counts (const_sampler 2) 1%N 2%N 3%N 4%N
              (Some (const_sampler 1)) (-1)%Z 2%Z (mkWorld 0 0%nat []) (snd (run0 (-1) 2)))
    as (Hn & Hm & Himp).
  split; [exact Hn|]. split; [exact Hm|]. split; [exact Hrun|].
  exact (Himp Hrun).
Defined.

(** C4 does not hold: a negative count is not rejected. The constructor
    returns a generator storing [normal_count = -1], and its run completes
    without any error, spawning only the two "ev" vehicles. *)
Lemma negative_count_not_rejected :
  normal_count (gen0 (-1) 2) = Some (-1)%Z /\
  fst (run0 (-1) 2) = Ok tt /\
  spawned_types (events (world (snd (run0 (-1) 2)))) = ["ev"; "ev"]%string.
Proof. vm_compute. repeat split. Qed.

Lemma negative_delay_aborts_witness :
  interarrival_func (self neg_state) = Some (const_sampler (-1)) /\
  fst (const_sampler (-1) (rng (world neg_state))) < 0 /\
  run_loop ["normal"%string] neg_state =
  (Err (ValueError "Negative delay"),
   mkSt (self neg_state) (mkWorld 0 1%nat [])).
Proof.
  assert (Hneg : fst (const_sampler (-1) (rng (world neg_state))) < 0)
    by (vm_compute; reflexivity).
  split; [reflexivity|]. split; [exact Hneg|].
  exact (negative_delay_aborts "normal"%string [] (const_sampler (-1)) neg_state
           eq_refl Hneg).
Defined.

Lemma run_reproducible_witness :
  rng (world (st0 3 2)) = rng (world other_state) /\
  interarrival_func (self (st0 3 2)) = interarrival_func (self other_state) /\
  normal_count (self (st0 3 2)) = normal_count (self other_state) /\
  ev_count (self (st0 3 2)) = ev_count (self other_state) /\
  fst (CustomVehicleGenerator_run (st0 3 2)) = fst (CustomVehicleGenerator_run other_state) /\
  rng (world (snd (CustomVehicleGenerator_run (st0 3 2))))
  = rng (world (snd (CustomVehicleGenerator_run other_state))) /\
  exists E1 E2,
    events (world (snd (CustomVehicleGenerator_run (st0 3 2)))) = events (world (st0 3 2)) ++ E1 /\
    events (world (snd (CustomVehicleGenerator_run other_state))) = events (world other_state) ++ E2 /\
    spawned_types E1 = spawned_types E2 /\ delays_of E1 = delays_of E2.
Proof.
  split; [reflexivity|]. split; [reflexivity|]. split; [reflexivity|]. split; [reflexivity|].
  exact (run_reproducible (st0 3 2) other_state eq_refl eq_refl eq_refl eq_refl).
Defined.

(** ** The extra properties at concrete inputs *)

Lemma counter_random_in_range : randbelow_in_range (RNG := nat).
Proof. intros k r Hk. cbn. apply Nat.mod_upper_bound. lia. Qed.

Lemma shuffle_ok_witness :
  randbelow_in_range (RNG := nat) /\
  exists y r',
    shuffle ["normal"; "normal"; "ev"]%string (st0 2 1)
    = (Ok y, mkSt (self (st0 2 1)) (mkWorld (now (world (st0 2 1))) r' (events (world (st0 2 1))))) /\
    Permutation ["normal"; "normal"; "ev"]%string y.
Proof.
  split; [exact counter_random_in_range|].
  exact (shuffle_ok counter_random_in_range ["normal"; "normal"; "ev"]%string (st0 2 1)).
Defined.

Lemma run_outcome_witness :
  randbelow_in_range (RNG := nat) /\
  normal_count (self neg_state) = Some 1%Z /\ ev_count (self neg_state) = Some 0%Z /\
  interarrival_func (self neg_state) = Some (const_sampler (-1)) /\
  match CustomVehicleGenerator_run neg_state with
  | (r, s') =>
    exists plan r0 k,
      Permutation (repeat "normal"%string (Z.to_nat 1) ++ repeat "ev"%string (Z.to_nat 0)) plan /\
      (k <= List.length plan)%nat /\
      Forall (Qle 0) (fst (draws (const_sampler (-1)) r0 k)) /\
      self s' = with_next_id (self neg_state) (next_id (self neg_state) + Z.of_nat k) /\
      now (world s') = fold_left Qplus (fst (draws (const_sampler (-1)) r0 k)) (now (world neg_state)) /\
      events (world s') = events (world neg_state) ++
        loop_trace (self neg_state) (next_id (self neg_state)) (now (world neg_state))
                   (combine (firstn k plan) (fst (draws (const_sampler (-1)) r0 k))) /\
      ((r = Ok tt /\ k = List.length plan) \/
       (r = Err (ValueError "Negative delay") /\ (k < List.length plan)%nat /\
        fst (const_sampler (-1) (snd (draws (const_sampler (-1)) r0 k))) < 0))
  end.
Proof.
  split; [exact counter_random_in_range|].
  split; [reflexivity|]. split; [reflexivity|]. split; [reflexivity|].
  exact (run_outcome counter_random_in_range neg_state 1 0 (const_sampler (-1))
           eq_refl eq_refl eq_refl).
Defined.

Lemma run_completes_witness :
  randbelow_in_range (RNG := nat) /\
  normal_count (self (st0 3 2)) = Some 3%Z /\ ev_count (self (st0 3 2)) = Some 2%Z /\
  interarrival_func (self (st0 3 2)) = Some (const_sampler 1) /\
  (forall r, 0 <= fst (const_sampler 1 r)) /\
  fst (CustomVehicleGenerator_run (st0 3 2)) = Ok tt.
Proof.
  assert (Hnn : forall r, 0 <= fst (const_sampler 1 r))
    by (intros r; apply Qle_bool_iff; reflexivity).
  split; [exact counter_random_in_range|].
  split; [reflexivity|]. split; [reflexivity|]. split; [reflexivity|].
  split; [exact Hnn|].
  exact (run_completes counter_random_in_range (st0 3 2) 3 2 (const_sampler 1)
           eq_refl eq_refl eq_refl Hnn).
Defined.

Lemma repeated_runs_witness :
  randbelow_in_range (RNG := nat) /\
  normal_count (self (st0 3 2)) = Some 3%Z /\ ev_count (self (st0 3 2)) = Some 2%Z /\
  interarrival_func (self (st0 3 2)) = Some (const_sampler 1) /\
  (forall r, 0 <= fst (const_sampler 1 r)) /\
  fst (exec (repeat Run 2) (st0 3 2)) = Ok tt /\
  exists E,
    events (world (snd (exec (repeat Run 2) (st0 3 2)))) = events (world (st0 3 2)) ++ E /\
    count_occ string_dec (spawned_types E) "normal"%string = (2 * Z.to_nat 3)%nat /\
    count_occ string_dec (spawned_types E) "ev"%string = (2 * Z.to_nat 2)%nat /\
    next_id (self (snd (exec (repeat Run 2) (st0 3 2))))
    = (next_id (self (st0 3 2)) + Z.of_nat (2 * (Z.to_nat 3 + Z.to_nat 2)))%Z.
Proof.
  assert (Hnn : forall r, 0 <= fst (const_sampler 1 r))
    by (intros r; apply Qle_bool_iff; reflexivity).
  split; [exact counter_random_in_range|].
  split; [reflexivity|]. split; [reflexivity|]. split; [reflexivity|].
  split; [exact Hnn|].
  exact (repeated_runs counter_random_in_range (st0 3 2) 3 2 (const_sampler 1) 2
           eq_refl eq_refl eq_refl Hnn).
Defined.
